(** * Clinic Signal: the bridge service and the application state

    A shallow embedding of [src/services/hueBridge.js] (the second version,
    with the certificate check and the two protocol versions) and of the
    parts of [src/App.jsx] that own the activity log and the disconnect
    handler, followed by the properties proved about them.

    JavaScript numbers are IEEE 754 binary64 values: they are modelled by
    Rocq's primitive floats, so that [brightness / 100 * 254] is computed
    with the roundings the program performs.  Strings are sequences of code
    units below 256.  A [fetch] goes to a network that is a parameter of the
    development; every request the program issues is recorded in a trace. *)

From Stdlib Require Import ZArith List String Ascii Bool Lia DecimalString.
From Stdlib Require Import PrimFloat FloatOps SpecFloat Uint63.
Import ListNotations.
Local Open Scope string_scope.
Local Open Scope Z_scope.

(* ================================================================= *)
(** ** JavaScript values *)

#[local] Set Warnings "-register-all,-inexact-float".

(** A value as [JSON.parse] or an object literal builds it.  [VObj] lists
    the own properties in the order [Object.entries] enumerates them; keys
    are distinct, and a lookup takes the first match. *)
Inductive jsval : Type :=
| VUndef
| VNull
| VBool (b : bool)
| VNum (n : float)
| VStr (s : string)
| VArr (xs : list jsval)
| VObj (props : list (string * jsval)).

(** An [Error] object: its [name] and its [message].  The message of an
    error the engine raises by itself is implementation-defined and is left
    empty. *)
Record js_error : Type := Err { err_name : string; err_message : string }.

Definition TypeError : js_error := Err "TypeError" "".
Definition SyntaxError : js_error := Err "SyntaxError" "".

(** The outcome of evaluating an expression or awaiting a promise. *)
Inductive completion (A : Type) : Type :=
| Ret (a : A)
| Throw (e : js_error).
Arguments Ret {A} a.
Arguments Throw {A} e.

(** *** Numbers *)

(** The number that an integer literal denotes; exact below 2^53. *)
Definition float_of_Z (z : Z) : float :=
  if z <? 0 then PrimFloat.opp (PrimFloat.of_uint63 (Uint63.of_Z (- z)))
  else PrimFloat.of_uint63 (Uint63.of_Z z).

(** [Math.round]: a value that is not finite or is already integral is
    returned as it is; otherwise the closest integer, the one towards
    +infinity on a tie, with the sign of the argument when that is zero.
    The finite value is [m * 2^e]; for [e < 0] the integer is
    [floor (m * 2^e + 1/2)], computed exactly. *)
Definition Math_round (x : float) : float :=
  match Prim2SF x with
  | S754_finite s m e =>
      if 0 <=? e then x
      else
        let n := if s then Z.neg m else Z.pos m in
        let q := (2 * n + 2 ^ (- e)) / 2 ^ (- e + 1) in
        if q =? 0 then (if s then (-0)%float else 0%float) else float_of_Z q
  | _ => x
  end.

(** *** Strings *)

Definition str_eqb (a b : string) : bool := String.eqb a b.

(** `${v}` for a field that holds a string or [null]. *)
Definition template (o : option string) : string :=
  match o with
  | Some s => s
  | None => "null"
  end.

(** [o?.startsWith(p)], used as a condition: [undefined] is falsy. *)
Definition opt_startsWith (o : option string) (p : string) : bool :=
  match o with
  | Some s => String.prefix p s
  | None => false
  end.

(** White space and line terminators that [trim] removes, among the code
    units below 256: TAB, LF, VT, FF, CR, SP and NBSP. *)
Definition is_js_space (c : ascii) : bool :=
  let n := nat_of_ascii c in
  ((9 <=? n)%nat && (n <=? 13)%nat) || (n =? 32)%nat || (n =? 160)%nat.

Fixpoint trimStart (s : string) : string :=
  match s with
  | EmptyString => EmptyString
  | String c s' => if is_js_space c then trimStart s' else s
  end.

Definition is_empty (s : string) : bool :=
  match s with
  | EmptyString => true
  | String _ _ => false
  end.

(** Removes the longest suffix whose characters all satisfy [p]. *)
Fixpoint strip_suffix_while (p : ascii -> bool) (s : string) : string :=
  match s with
  | EmptyString => EmptyString
  | String c s' =>
      let t := strip_suffix_while p s' in
      if p c && is_empty t then EmptyString else String c t
  end.

Definition trimEnd (s : string) : string := strip_suffix_while is_js_space s.

Definition trim (s : string) : string := trimEnd (trimStart s).

Fixpoint drop (n : nat) (s : string) : string :=
  match n, s with
  | O, _ => s
  | S n', String _ s' => drop n' s'
  | S _, EmptyString => EmptyString
  end.

(** [s.replace(/^https?:\/\//, "")] *)
Definition strip_scheme (s : string) : string :=
  if String.prefix "https://" s then drop 8 s
  else if String.prefix "http://" s then drop 7 s
  else s.

Definition is_slash (c : ascii) : bool := Ascii.eqb c "/"%char.

(** [s.replace(/\/+$/, "")]: the first match of the pattern is the
    maximal run of slashes that reaches the end of the string. *)
Definition strip_trailing_slashes (s : string) : string :=
  strip_suffix_while is_slash s.

Fixpoint last_char (s : string) : option ascii :=
  match s with
  | EmptyString => None
  | String c EmptyString => Some c
  | String _ s' => last_char s'
  end.

Fixpoint all_chars (p : ascii -> bool) (s : string) : bool :=
  match s with
  | EmptyString => true
  | String c s' => p c && all_chars p s'
  end.

(** *** Property access and truthiness *)

Fixpoint assoc (k : string) (props : list (string * jsval)) : jsval :=
  match props with
  | [] => VUndef
  | (k', v) :: rest => if str_eqb k k' then v else assoc k rest
  end.

(** [v.k] for the property names the program reads ([data], [name],
    [state], [on], [bri], [xy], [type], [lights], [error], [description],
    [x], [y]): an array, a string, a number or a boolean has none of them,
    [null] and [undefined] raise a [TypeError]. *)
Definition get_prop (v : jsval) (k : string) : completion jsval :=
  match v with
  | VUndef | VNull => Throw TypeError
  | VObj props => Ret (assoc k props)
  | _ => Ret VUndef
  end.

(** [v?.k] *)
Definition get_prop_opt (v : jsval) (k : string) : jsval :=
  match v with
  | VObj props => assoc k props
  | _ => VUndef
  end.

Definition dec_string (i : nat) : string :=
  NilEmpty.string_of_uint (Nat.to_uint i).

(** [v[i]] for a literal index [i]. *)
Definition get_index (v : jsval) (i : nat) : completion jsval :=
  match v with
  | VUndef | VNull => Throw TypeError
  | VArr xs => Ret (nth i xs VUndef)
  | VStr s =>
      Ret (match String.get i s with
           | Some c => VStr (String c EmptyString)
           | None => VUndef
           end)
  | VObj props => Ret (assoc (dec_string i) props)
  | _ => Ret VUndef
  end.

Definition truthy (v : jsval) : bool :=
  match v with
  | VUndef | VNull => false
  | VBool b => b
  | VNum n => negb (PrimFloat.eqb n 0%float || PrimFloat.is_nan n)
  | VStr s => negb (is_empty s)
  | VArr _ | VObj _ => true
  end.

Definition isArray (v : jsval) : bool :=
  match v with
  | VArr _ => true
  | _ => false
  end.

(** [v === "s"] *)
Definition strict_eq_str (v : jsval) (s : string) : bool :=
  match v with
  | VStr s' => str_eqb s' s
  | _ => false
  end.

Fixpoint index_from (i : nat) (xs : list jsval) : list (string * jsval) :=
  match xs with
  | [] => []
  | x :: rest => (dec_string i, x) :: index_from (S i) rest
  end.

Fixpoint chars_from (i : nat) (s : string) : list (string * jsval) :=
  match s with
  | EmptyString => []
  | String c s' => (dec_string i, VStr (String c EmptyString)) :: chars_from (S i) s'
  end.

(** [Object.entries(v)] *)
Definition Object_entries (v : jsval) : completion (list (string * jsval)) :=
  match v with
  | VUndef | VNull => Throw TypeError
  | VObj props => Ret props
  | VArr xs => Ret (index_from 0 xs)
  | VStr s => Ret (chars_from 0 s)
  | VBool _ | VNum _ => Ret []
  end.

(** [xs.map(f)] where [f] may throw; the first throw ends the
    traversal. *)
Fixpoint map_completion {A B : Type} (f : A -> completion B) (xs : list A)
  : completion (list B) :=
  match xs with
  | [] => Ret []
  | x :: rest =>
      match f x with
      | Throw e => Throw e
      | Ret y =>
          match map_completion f rest with
          | Throw e => Throw e
          | Ret ys => Ret (y :: ys)
          end
      end
  end.

(** [xs.filter(f)] where [f] may throw. *)
Fixpoint filter_completion {A : Type} (f : A -> completion bool) (xs : list A)
  : completion (list A) :=
  match xs with
  | [] => Ret []
  | x :: rest =>
      match f x with
      | Throw e => Throw e
      | Ret b =>
          match filter_completion f rest with
          | Throw e => Throw e
          | Ret ys => Ret (if b then x :: ys else ys)
          end
      end
  end.

(* ================================================================= *)
(** ** The network *)

(** What [fetch] sends.  [body] is the value handed to [JSON.stringify];
    [abort_after] is the delay in milliseconds after which the request's
    [AbortController] aborts it, when it has one. *)
Record request : Type := Request {
  url : string;
  method : string;
  headers : list (string * string);
  body : option jsval;
  abort_after : option Z
}.

(** A response: its status and what [res.json()] parses from its body
    ([None]: the body is not JSON). *)
Record response : Type := Response {
  status : Z;
  payload : option jsval
}.

(** [res.ok] *)
Definition ok (res : response) : bool :=
  (200 <=? status res) && (status res <=? 299).

(** [res.json()] *)
Definition json (res : response) : completion jsval :=
  match payload res with
  | Some v => Ret v
  | None => Throw SyntaxError
  end.

(** How the network treats one request: it answers with a response
    (whatever its status), the attempt fails with an exception, or nothing
    settles the request before its abort timer fires (for ever, when it
    has no timer). *)
Inductive net_behaviour : Type :=
| Answers (res : response)
| Fails (e : js_error)
| Silent.

(** The network decides from the requests issued so far (oldest first) and
    the request at hand. *)
Definition network : Type := list request -> request -> net_behaviour.

Definition AbortError : js_error := Err "AbortError" "".

(* ================================================================= *)
(** ** The bridge service *)

Inductive api_version : Type := v2 | v1.

(** The fields of the [HueBridgeService] singleton. *)
Record HueBridgeService : Type := Service {
  _bridgeIp : option string;
  _apiKey : option string;
  _connected : bool;
  _apiVersion : option api_version
}.

(** The object as the module creates it. *)
Definition initial : HueBridgeService :=
  {| _bridgeIp := None; _apiKey := None; _connected := false; _apiVersion := None |}.

Definition isConnected (this : HueBridgeService) : bool := _connected this.
Definition apiVersion (this : HueBridgeService) : option api_version := _apiVersion this.

Definition configure (ip apiKey : string) (this : HueBridgeService) : HueBridgeService :=
  let cleanIp := trim ip in
  let cleanIp := strip_scheme cleanIp in
  let cleanIp := strip_trailing_slashes cleanIp in
  {| _bridgeIp := Some cleanIp;
     _apiKey := Some (trim apiKey);
     _connected := false;
     _apiVersion := None |}.

Definition _bridgeOrigin (this : HueBridgeService) : string :=
  let protocol := if opt_startsWith (_bridgeIp this) "localhost" then "http" else "https" in
  protocol ++ "://" ++ template (_bridgeIp this).

Definition _baseUrlV2 (this : HueBridgeService) : string :=
  _bridgeOrigin this ++ "/clip/v2".

Definition _baseUrlV1 (this : HueBridgeService) : string :=
  _bridgeOrigin this ++ "/api/" ++ template (_apiKey this).

Definition _headersV2 (this : HueBridgeService) : list (string * string) :=
  [("hue-application-key", template (_apiKey this));
   ("Content-Type", "application/json")].

Definition _headersV1 (this : HueBridgeService) : list (string * string) :=
  [("Content-Type", "application/json")].

Definition getCertAcceptUrl (this : HueBridgeService) : string :=
  "https://" ++ template (_bridgeIp this) ++ "/api".

(** *** Asynchronous methods

    A method runs from the object's fields and the trace of requests issued
    so far.  It settles with a value or an exception, the fields and the
    trace it leaves; [None] is a promise that never settles. *)
Definition M (A : Type) : Type :=
  HueBridgeService -> list request ->
  option (completion A * HueBridgeService * list request).

Definition ret {A : Type} (a : A) : M A :=
  fun this tr => Some (Ret a, this, tr).

Definition throw {A : Type} (e : js_error) : M A :=
  fun this tr => Some (Throw e, this, tr).

Definition lift {A : Type} (c : completion A) : M A :=
  fun this tr => Some (c, this, tr).

Definition bind {A B : Type} (m : M A) (k : A -> M B) : M B :=
  fun this tr =>
    match m this tr with
    | None => None
    | Some (Ret a, this', tr') => k a this' tr'
    | Some (Throw e, this', tr') => Some (Throw e, this', tr')
    end.

(** [try { m } catch (err) { h err }] *)
Definition try_catch {A : Type} (m : M A) (h : js_error -> M A) : M A :=
  fun this tr =>
    match m this tr with
    | None => None
    | Some (Ret a, this', tr') => Some (Ret a, this', tr')
    | Some (Throw e, this', tr') => h e this' tr'
    end.

Definition read : M HueBridgeService :=
  fun this tr => Some (Ret this, this, tr).

Definition set_connected (b : bool) : M unit :=
  fun this tr =>
    Some (Ret tt,
          {| _bridgeIp := _bridgeIp this; _apiKey := _apiKey this;
             _connected := b; _apiVersion := _apiVersion this |},
          tr).

Definition set_apiVersion (v : api_version) : M unit :=
  fun this tr =>
    Some (Ret tt,
          {| _bridgeIp := _bridgeIp this; _apiKey := _apiKey this;
             _connected := _connected this; _apiVersion := Some v |},
          tr).

Declare Scope js_scope.
Delimit Scope js_scope with js.
Notation "x <- m ;; k" := (bind m (fun x => k))
  (at level 61, m at next level, right associativity) : js_scope.
Notation "m ;; k" := (bind m (fun _ => k))
  (at level 61, right associativity) : js_scope.
Local Open Scope js_scope.

(** The result of [checkReachability]: [{ reachable: true }] or
    [{ reachable: false, reason: "cert" | "network" }]. *)
Record reach_result : Type := Reach {
  reachable : bool;
  reason : option string
}.

(** [reach.reason === "s"] *)
Definition reason_is (reach : reach_result) (s : string) : bool :=
  match reason reach with
  | Some r => str_eqb r s
  | None => false
  end.

(** The [error] text of a connection result.  [KeyRejected d] is the
    template literal `API key rejected: ${d}`, kept symbolic in the value
    [d] that the bridge sent as the description. *)
Inductive message : Type :=
| Text (s : string)
| KeyRejected (description : jsval).

(** The result of [testConnection]; a field the object literal leaves out
    is [None].  [negotiated] is the [apiVersion] member of the result. *)
Record test_result : Type := TestResult {
  success : bool;
  needsCert : option bool;
  certUrl : option string;
  error : option message;
  negotiated : option api_version
}.

Definition probe_request (this : HueBridgeService) : request :=
  if opt_startsWith (_bridgeIp this) "localhost" then
    {| url := _bridgeOrigin this ++ "/api"; method := "GET"; headers := [];
       body := None; abort_after := None |}
  else
    {| url := "https://" ++ template (_bridgeIp this) ++ "/api"; method := "GET";
       headers := []; body := None; abort_after := Some 5000 |}.

Definition list_lights_v2 (this : HueBridgeService) : request :=
  {| url := _baseUrlV2 this ++ "/resource/light"; method := "GET";
     headers := _headersV2 this; body := None; abort_after := None |}.

Definition list_lights_v1 (this : HueBridgeService) : request :=
  {| url := _baseUrlV1 this ++ "/lights"; method := "GET";
     headers := _headersV1 this; body := None; abort_after := None |}.

Definition list_rooms_v2 (this : HueBridgeService) : request :=
  {| url := _baseUrlV2 this ++ "/resource/room"; method := "GET";
     headers := _headersV2 this; body := None; abort_after := None |}.

Definition list_groups_v1 (this : HueBridgeService) : request :=
  {| url := _baseUrlV1 this ++ "/groups"; method := "GET";
     headers := _headersV1 this; body := None; abort_after := None |}.

Definition put_v2 (this : HueBridgeService) (path : string) (b : jsval) : request :=
  {| url := _baseUrlV2 this ++ path; method := "PUT";
     headers := _headersV2 this; body := Some b; abort_after := None |}.

Definition put_v1 (this : HueBridgeService) (path : string) (b : jsval) : request :=
  {| url := _baseUrlV1 this ++ path; method := "PUT";
     headers := _headersV1 this; body := Some b; abort_after := None |}.

(** The state payload of the modern protocol. *)
Definition body_v2 (cx cy : jsval) (brightness : float) : jsval :=
  VObj [("on", VObj [("on", VBool true)]);
        ("dimming", VObj [("brightness", VNum brightness)]);
        ("color", VObj [("xy", VObj [("x", cx); ("y", cy)])])].

(** [Math.round((brightness / 100) * 254)] *)
Definition bri_v1 (brightness : float) : float :=
  Math_round (PrimFloat.mul (PrimFloat.div brightness 100%float) 254%float).

(** The state payload of the legacy protocol. *)
Definition body_v1 (cx cy : jsval) (brightness : float) : jsval :=
  VObj [("on", VBool true);
        ("bri", VNum (bri_v1 brightness));
        ("xy", VArr [cx; cy])].

(** A parameter declared [brightness = 100]. *)
Definition default_brightness (brightness : option float) : float :=
  match brightness with
  | Some b => b
  | None => 100%float
  end.

(** One entry of the legacy light list, as [getLights] reshapes it. *)
Definition light_of_entry (entry : string * jsval) : completion jsval :=
  let (id, light) := entry in
  match get_prop light "name" with
  | Throw e => Throw e
  | Ret name =>
      match get_prop light "state" with
      | Throw e => Throw e
      | Ret state =>
          let xy := get_prop_opt state "xy" in
          match (if truthy xy then
                   match get_index xy 0, get_index xy 1 with
                   | Ret x0, Ret x1 => Ret (VObj [("xy", VObj [("x", x0); ("y", x1)])])
                   | Throw e, _ => Throw e
                   | _, Throw e => Throw e
                   end
                 else Ret VUndef) with
          | Throw e => Throw e
          | Ret color =>
              Ret (VObj [("id", VStr id);
                         ("metadata", VObj [("name", name)]);
                         ("on", VObj [("on", get_prop_opt state "on")]);
                         ("dimming", VObj [("brightness", get_prop_opt state "bri")]);
                         ("color", color)])
          end
      end
  end.

(** [group.type === "Room"] *)
Definition is_room_entry (entry : string * jsval) : completion bool :=
  match get_prop (snd entry) "type" with
  | Throw e => Throw e
  | Ret t => Ret (strict_eq_str t "Room")
  end.

(** [(lights || []).map((lid) => ({ rtype: "device", rid: lid }))]: a
    truthy value that is not an array has no [map] to call. *)
Definition children_of (lights : jsval) : completion jsval :=
  if truthy lights then
    match lights with
    | VArr xs =>
        Ret (VArr (map (fun lid => VObj [("rtype", VStr "device"); ("rid", lid)]) xs))
    | _ => Throw TypeError
    end
  else Ret (VArr []).

(** One entry of the legacy group list, as [getRooms] reshapes it. *)
Definition room_of_entry (entry : string * jsval) : completion jsval :=
  let (id, group) := entry in
  match get_prop group "name" with
  | Throw e => Throw e
  | Ret name =>
      match get_prop group "lights" with
      | Throw e => Throw e
      | Ret lights =>
          match children_of lights with
          | Throw e => Throw e
          | Ret children =>
              Ret (VObj [("id", VStr id);
                         ("metadata", VObj [("name", name)]);
                         ("children", children);
                         ("services",
                          VArr [VObj [("rtype", VStr "grouped_light"); ("rid", VStr id)]])])
          end
      end
  end.

(** [data.data || []] *)
Definition data_or_empty (data : jsval) : completion jsval :=
  match get_prop data "data" with
  | Throw e => Throw e
  | Ret d => Ret (if truthy d then d else VArr [])
  end.

Section Methods.

Variable net : network.

(** [await fetch(...)]: the request joins the trace; a request that
    nothing settles is rejected with an [AbortError] when its timer
    fires, and stays pending when it has none. *)
Definition fetch (q : request) : M response :=
  fun this tr =>
    match net tr q with
    | Answers res => Some (Ret res, this, (tr ++ [q])%list)
    | Fails e => Some (Throw e, this, (tr ++ [q])%list)
    | Silent =>
        match abort_after q with
        | Some _ => Some (Throw AbortError, this, (tr ++ [q])%list)
        | None => None
        end
    end.

Definition checkReachability : M reach_result :=
  this <- read ;;
  if opt_startsWith (_bridgeIp this) "localhost" then
    try_catch
      (_ <- fetch (probe_request this) ;;
       ret {| reachable := true; reason := None |})
      (fun _ => ret {| reachable := false; reason := Some "network" |})
  else
    try_catch
      (_ <- fetch (probe_request this) ;;
       ret {| reachable := true; reason := None |})
      (fun err =>
         if str_eqb (err_name err) "AbortError"
         then ret {| reachable := false; reason := Some "network" |}
         else ret {| reachable := false; reason := Some "cert" |}).

Definition cert_needed (this : HueBridgeService) : test_result :=
  {| success := false; needsCert := Some true;
     certUrl := Some (getCertAcceptUrl this);
     error := Some (Text "Cannot reach the bridge — you need to accept its security certificate first.");
     negotiated := None |}.

Definition failure (msg : message) : test_result :=
  {| success := false; needsCert := None; certUrl := None;
     error := Some msg; negotiated := None |}.

Definition connected_via (v : api_version) : test_result :=
  {| success := true; needsCert := None; certUrl := None;
     error := None; negotiated := Some v |}.

(** Step 2 of [testConnection]: [Some r] when the [try] block returns
    [r], [None] when control leaves it without a [return]. *)
Definition try_v2 : M (option test_result) :=
  try_catch
    (this <- read ;;
     res <- fetch (list_lights_v2 this) ;;
     if ok res then
       set_connected true ;;
       set_apiVersion v2 ;;
       ret (Some (connected_via v2))
     else if (status res =? 403) || (status res =? 401) then
       set_connected false ;;
       ret (Some (failure (Text "Invalid API key.")))
     else ret None)
    (fun _ => ret None).

(** Step 3 of [testConnection]. *)
Definition try_v1 : M (option test_result) :=
  try_catch
    (this <- read ;;
     res <- fetch (list_lights_v1 this) ;;
     if ok res then
       data <- lift (json res) ;;
       first <- lift (if isArray data then get_index data 0 else Ret VUndef) ;;
       if isArray data && truthy (get_prop_opt first "error") then
         set_connected false ;;
         description <- lift (get_prop (get_prop_opt first "error") "description") ;;
         ret (Some (failure (KeyRejected description)))
       else
         set_connected true ;;
         set_apiVersion v1 ;;
         ret (Some (connected_via v1))
     else ret None)
    (fun _ => ret None).

Definition testConnection : M test_result :=
  reach <- checkReachability ;;
  if negb (reachable reach) then
    set_connected false ;;
    this <- read ;;
    if reason_is reach "cert" then ret (cert_needed this)
    else
      ret (failure (Text "Cannot reach the bridge. Check the IP address and make sure you're on the same network."))
  else
    r2 <- try_v2 ;;
    match r2 with
    | Some r => ret r
    | None =>
        r1 <- try_v1 ;;
        match r1 with
        | Some r => ret r
        | None =>
            set_connected false ;;
            ret (failure (Text "Connected to bridge but API calls failed. Check your API key."))
        end
    end.

End Methods.

Section LightControl.

Variable net : network.

Definition getLights : M jsval :=
  this <- read ;;
  match _apiVersion this with
  | Some v2 =>
      res <- fetch net (list_lights_v2 this) ;;
      if negb (ok res) then throw (Err "Error" "Failed to fetch lights")
      else
        data <- lift (json res) ;;
        lift (data_or_empty data)
  | _ =>
      res <- fetch net (list_lights_v1 this) ;;
      if negb (ok res) then throw (Err "Error" "Failed to fetch lights")
      else
        data <- lift (json res) ;;
        entries <- lift (Object_entries data) ;;
        lights <- lift (map_completion light_of_entry entries) ;;
        ret (VArr lights)
  end.

Definition getRooms : M jsval :=
  this <- read ;;
  match _apiVersion this with
  | Some v2 =>
      res <- fetch net (list_rooms_v2 this) ;;
      if negb (ok res) then throw (Err "Error" "Failed to fetch rooms")
      else
        data <- lift (json res) ;;
        lift (data_or_empty data)
  | _ =>
      res <- fetch net (list_groups_v1 this) ;;
      if negb (ok res) then throw (Err "Error" "Failed to fetch rooms")
      else
        data <- lift (json res) ;;
        entries <- lift (Object_entries data) ;;
        groups <- lift (filter_completion is_room_entry entries) ;;
        rooms <- lift (map_completion room_of_entry groups) ;;
        ret (VArr rooms)
  end.

Definition setLightColor (lightId : string) (color : jsval) (brightness : option float)
  : M jsval :=
  let brightness := default_brightness brightness in
  this <- read ;;
  match _apiVersion this with
  | Some v2 =>
      cx <- lift (get_prop color "x") ;;
      cy <- lift (get_prop color "y") ;;
      res <- fetch net (put_v2 this ("/resource/light/" ++ lightId)
                               (body_v2 cx cy brightness)) ;;
      if negb (ok res) then throw (Err "Error" ("Failed to set light " ++ lightId))
      else lift (json res)
  | _ =>
      cx <- lift (get_prop color "x") ;;
      cy <- lift (get_prop color "y") ;;
      res <- fetch net (put_v1 this ("/lights/" ++ lightId ++ "/state")
                               (body_v1 cx cy brightness)) ;;
      if negb (ok res) then throw (Err "Error" ("Failed to set light " ++ lightId))
      else lift (json res)
  end.

Definition setGroupedLightColor (groupId : string) (color : jsval)
           (brightness : option float) : M jsval :=
  let brightness := default_brightness brightness in
  this <- read ;;
  match _apiVersion this with
  | Some v2 =>
      cx <- lift (get_prop color "x") ;;
      cy <- lift (get_prop color "y") ;;
      res <- fetch net (put_v2 this ("/resource/grouped_light/" ++ groupId)
                               (body_v2 cx cy brightness)) ;;
      if negb (ok res) then throw (Err "Error" ("Failed to set group " ++ groupId))
      else lift (json res)
  | _ =>
      cx <- lift (get_prop color "x") ;;
      cy <- lift (get_prop color "y") ;;
      res <- fetch net (put_v1 this ("/groups/" ++ groupId ++ "/action")
                               (body_v1 cx cy brightness)) ;;
      if negb (ok res) then throw (Err "Error" ("Failed to set group " ++ groupId))
      else lift (json res)
  end.

Definition off_v2 : jsval := VObj [("on", VObj [("on", VBool false)])].
Definition off_v1 : jsval := VObj [("on", VBool false)].

Definition turnOff (lightId : string) : M jsval :=
  this <- read ;;
  match _apiVersion this with
  | Some v2 =>
      res <- fetch net (put_v2 this ("/resource/light/" ++ lightId) off_v2) ;;
      if negb (ok res) then throw (Err "Error" ("Failed to turn off " ++ lightId))
      else lift (json res)
  | _ =>
      res <- fetch net (put_v1 this ("/lights/" ++ lightId ++ "/state") off_v1) ;;
      if negb (ok res) then throw (Err "Error" ("Failed to turn off " ++ lightId))
      else lift (json res)
  end.

Definition turnOffGroup (groupId : string) : M jsval :=
  this <- read ;;
  match _apiVersion this with
  | Some v2 =>
      res <- fetch net (put_v2 this ("/resource/grouped_light/" ++ groupId) off_v2) ;;
      if negb (ok res) then throw (Err "Error" ("Failed to turn off group " ++ groupId))
      else lift (json res)
  | _ =>
      res <- fetch net (put_v1 this ("/groups/" ++ groupId ++ "/action") off_v1) ;;
      if negb (ok res) then throw (Err "Error" ("Failed to turn off group " ++ groupId))
      else lift (json res)
  end.

Definition signalLight (lightId : string) : M jsval :=
  this <- read ;;
  match _apiVersion this with
  | Some v2 =>
      res <- fetch net (put_v2 this ("/resource/light/" ++ lightId)
                               (VObj [("alert", VObj [("action", VStr "breathe")])])) ;;
      lift (json res)
  | _ =>
      res <- fetch net (put_v1 this ("/lights/" ++ lightId ++ "/state")
                               (VObj [("alert", VStr "lselect")])) ;;
      lift (json res)
  end.

(** A call of one of the light and group methods. *)
Inductive operation : Type :=
| GetLights
| GetRooms
| SetLightColor (lightId : string) (color : jsval) (brightness : option float)
| SetGroupedLightColor (groupId : string) (color : jsval) (brightness : option float)
| TurnOff (lightId : string)
| TurnOffGroup (groupId : string)
| SignalLight (lightId : string).

Definition call (op : operation) : M jsval :=
  match op with
  | GetLights => getLights
  | GetRooms => getRooms
  | SetLightColor l c b => setLightColor l c b
  | SetGroupedLightColor g c b => setGroupedLightColor g c b
  | TurnOff l => turnOff l
  | TurnOffGroup g => turnOffGroup g
  | SignalLight l => signalLight l
  end.

(** A caller awaits the calls one after the other and goes on whether a
    call returns or throws, as the application does, which catches the
    exception of each call.  The result is the fields and the trace
    at the end, when every call settles. *)
Fixpoint session (ops : list operation) (this : HueBridgeService) (tr : list request)
  : option (HueBridgeService * list request) :=
  match ops with
  | [] => Some (this, tr)
  | op :: rest =>
      match call op this tr with
      | None => None
      | Some (_, this', tr') => session rest this' tr'
      end
  end.

End LightControl.

(* ================================================================= *)
(** ** The application state *)

Module App.

(** A signal of [config/signals.js]; the fields that only the rendering
    reads (icon, description) are left out. *)
Record signal : Type := Signal {
  sig_id : string;
  sig_label : string;
  sig_color : jsval;
  sig_hex : string;
  sig_brightness : float;
  sig_priority : Z
}.

Definition xy (x y : float) : jsval := VObj [("x", VNum x); ("y", VNum y)].

Definition SIGNALS : list signal :=
  [ {| sig_id := "room_ready"; sig_label := "Room Ready";
       sig_color := xy 0.17 0.7; sig_hex := "#22c55e";
       sig_brightness := 80; sig_priority := 1 |};
    {| sig_id := "need_assistance"; sig_label := "Need Assistance";
       sig_color := xy 0.42 0.505; sig_hex := "#eab308";
       sig_brightness := 100; sig_priority := 2 |};
    {| sig_id := "doctor_needed"; sig_label := "Doctor Needed";
       sig_color := xy 0.154 0.08; sig_hex := "#3b82f6";
       sig_brightness := 100; sig_priority := 3 |};
    {| sig_id := "emergency"; sig_label := "Emergency";
       sig_color := xy 0.68 0.31; sig_hex := "#ef4444";
       sig_brightness := 100; sig_priority := 4 |};
    {| sig_id := "clear"; sig_label := "Clear / Off";
       sig_color := VNull; sig_hex := "#71717a";
       sig_brightness := 0; sig_priority := 0 |} ].

Record room : Type := Room {
  room_id : string;
  room_name : string;
  lights : list string;
  groupedLightId : option string
}.

Definition DEMO_ROOMS : list room :=
  [ {| room_id := "room-1"; room_name := "Room 1 — Consultation";
       lights := ["light-1a"]; groupedLightId := Some "group-1" |};
    {| room_id := "room-2"; room_name := "Room 2 — Examination";
       lights := ["light-2a"; "light-2b"]; groupedLightId := Some "group-2" |};
    {| room_id := "room-3"; room_name := "Room 3 — Treatment";
       lights := ["light-3a"]; groupedLightId := Some "group-3" |};
    {| room_id := "room-4"; room_name := "Room 4 — Waiting Area";
       lights := ["light-4a"; "light-4b"]; groupedLightId := Some "group-4" |} ].

(** *** The activity log *)

Record log_entry : Type := LogEntry {
  id : Z;
  timestamp : Z;
  roomName : string;
  signalLabel : string;
  success : bool
}.

(** One call of [addLog], with what the clock gives to [Date.now()] and
    to [new Date()] during the call; [ok_flag] is the parameter declared
    [success = true]. *)
Record log_call : Type := LogCall {
  now : Z;
  date : Z;
  call_room : string;
  call_signal : string;
  ok_flag : option bool
}.

Definition entry_of (c : log_call) : log_entry :=
  {| id := now c; timestamp := date c;
     roomName := call_room c; signalLabel := call_signal c;
     success := match ok_flag c with Some b => b | None => true end |}.

(** [prev.slice(0, n)] *)
Definition slice0 {A : Type} (n : nat) (prev : list A) : list A := firstn n prev.

(** The update that [addLog] hands to [setLogs]. *)
Definition addLog (c : log_call) (prev : list log_entry) : list log_entry :=
  entry_of c :: slice0 49 prev.

(** The log after a sequence of calls, the first call first, from the
    initial state [useState([])]. *)
Definition logs_after (calls : list log_call) : list log_entry :=
  fold_left (fun logs c => addLog c logs) calls [].

(** *** The state of the [App] component *)

Record toast : Type := Toast { toast_message : string; toast_type : string }.

Record state : Type := State {
  view : string;
  bridgeIp : string;
  apiKey : string;
  connected : bool;
  demoMode : bool;
  connectionError : string;
  needsCert : bool;
  certUrl : string;
  apiVersion : string;
  rooms : list room;
  roomSignals : list (string * string);
  current_toast : option toast;
  logs : list log_entry
}.

(** What the component starts from, given what [localStorage] holds
    under the two keys. *)
Definition init (stored_ip stored_key : option string) : state :=
  {| view := "control";
     bridgeIp := match stored_ip with Some s => s | None => "" end;
     apiKey := match stored_key with Some s => s | None => "" end;
     connected := false; demoMode := true; connectionError := "";
     needsCert := false; certUrl := ""; apiVersion := "";
     rooms := DEMO_ROOMS; roomSignals := []; current_toast := None; logs := [] |}.

(** The component's state together with the service singleton that the
    module imports. *)
Record system : Type := System {
  app : state;
  bridge : HueBridgeService
}.

(** [handleDisconnect]: five state setters and a toast; the handler calls
    no method of the service. *)
Definition handleDisconnect (s : system) : system :=
  let a := app s in
  {| app :=
       {| view := view a; bridgeIp := bridgeIp a; apiKey := apiKey a;
          connected := false;
          demoMode := true;
          connectionError := connectionError a;
          needsCert := needsCert a; certUrl := certUrl a;
          apiVersion := "";
          rooms := DEMO_ROOMS;
          roomSignals := [];
          current_toast := Some {| toast_message := "Disconnected — demo mode";
                                   toast_type := "info" |};
          logs := logs a |};
     bridge := bridge s |}.

End App.

(* ================================================================= *)
(** ** Vocabulary of the statements, sample bridges and networks *)

(** The request that the probe sends to a host that is not local. *)
Definition diagnostic_request (this : HueBridgeService) : request :=
  {| url := "https://" ++ template (_bridgeIp this) ++ "/api";
     method := "GET"; headers := []; body := None;
     abort_after := Some 5000 |}.

Definition unreachable (cause : string) : reach_result :=
  {| reachable := false; reason := Some cause |}.

Definition remote_bridge : HueBridgeService := configure "10.0.0.5" "bad" initial.

(** A network on which every attempt fails at once, as a refused
    connection does in a browser. *)
Definition refusing : network :=
  fun _ _ => Fails (Err "TypeError" "Failed to fetch").

(** A network on which nothing ever answers. *)
Definition silent : network := fun _ _ => Silent.

Definition with_connected (b : bool) (this : HueBridgeService) : HueBridgeService :=
  {| _bridgeIp := _bridgeIp this; _apiKey := _apiKey this;
     _connected := b; _apiVersion := _apiVersion this |}.

(** A bridge that answers the probe and rejects the key on the modern
    listing; it would accept the legacy listing. *)
Definition rejecting : network :=
  fun _ q =>
    if str_eqb (url q) "https://10.0.0.5/clip/v2/resource/light"
    then Answers {| status := 403; payload := Some (VObj [("errors", VArr [])]) |}
    else Answers {| status := 200; payload := Some (VObj []) |}.

(** A method keeps the fields when, however it settles, the object is as
    it was. *)
Definition keeps_fields {A : Type} (m : M A) : Prop :=
  forall this tr c this' tr', m this tr = Some (c, this', tr') -> this' = this.

(** The simulated bridge of the repository, as far as the service can
    tell: every request is answered with status 200 and an empty list. *)
Definition obliging : network :=
  fun _ _ => Answers {| status := 200; payload := Some (VObj [("data", VArr [])]) |}.

Definition local_bridge : HueBridgeService := configure "localhost:3100" "x" initial.

Definition sample_session : list operation :=
  [ GetRooms;
    SetGroupedLightColor "group-2" (App.xy 0.17 0.7) (Some 80%float);
    SetLightColor "light-2a" (App.xy 0.17 0.7) None;
    SignalLight "light-2a";
    TurnOff "light-2a";
    TurnOffGroup "group-2";
    GetLights ].

(** A method sends [q]: unless the network leaves [q] unsettled, the call
    settles, with the fields as they were and [q] as the one request added
    to the trace. *)
Definition sends {A : Type} (net : network) (m : M A)
           (this : HueBridgeService) (tr : list request) (q : request) : Prop :=
  net tr q <> Silent ->
  exists c, m this tr = Some (c, this, (tr ++ [q])%list).

(** The exact rounding of [254 * b / 100] to the nearest integer, halves
    upwards. *)
Definition rounded_254 (b : Z) : Z := (254 * b + 50) / 100.

(** A service connected to a bridge that speaks the legacy protocol. *)
Definition legacy_bridge : HueBridgeService :=
  {| _bridgeIp := Some "10.0.0.5"; _apiKey := Some "key";
     _connected := true; _apiVersion := Some v1 |}.

(** The scenario's request with the given [bri]. *)
Definition group_2_action (this : HueBridgeService) (bri : float) : request :=
  {| url := _baseUrlV1 this ++ "/groups/group-2/action";
     method := "PUT";
     headers := [("Content-Type", "application/json")];
     body := Some (VObj [("on", VBool true);
                         ("bri", VNum bri);
                         ("xy", VArr [VNum 0.17; VNum 0.7])]);
     abort_after := None |}.

(** The request of a list operation under the version in force. *)
Definition listing_request (op : operation) (this : HueBridgeService) : request :=
  match op, _apiVersion this with
  | GetRooms, Some v2 => list_rooms_v2 this
  | GetRooms, _ => list_groups_v1 this
  | _, Some v2 => list_lights_v2 this
  | _, _ => list_lights_v1 this
  end.

(** The error a list operation raises on a status that is not a success. *)
Definition listing_failed (op : operation) : js_error :=
  match op with
  | GetRooms => Err "Error" "Failed to fetch rooms"
  | _ => Err "Error" "Failed to fetch lights"
  end.

(** A list body of the modern protocol is well formed when it is an object
    whose [data] member is an array, as the simulated bridge builds it with
    [res.json({ data: ... })]. *)
Definition well_formed_v2 (p : option jsval) : bool :=
  match p with
  | Some (VObj props) => isArray (assoc "data" props)
  | _ => false
  end.

(** A service connected to a bridge that speaks the modern protocol. *)
Definition modern_bridge : HueBridgeService :=
  {| _bridgeIp := Some "10.0.0.5"; _apiKey := Some "key";
     _connected := true; _apiVersion := Some v2 |}.

(** A bridge that answers every request with status 200 and a body that
    carries errors and no data. *)
Definition dataless : network :=
  fun _ _ =>
    Answers {| status := 200;
               payload := Some (VObj [("errors", VArr [VObj [("description", VStr "busy")]])]) |}.

(** The application connected to a bridge: the form holds the host and
    the key, and the service has negotiated the modern protocol. *)
Definition connected_system : App.system :=
  {| App.app :=
       {| App.view := "settings"; App.bridgeIp := "10.0.0.5"; App.apiKey := "key";
          App.connected := true; App.demoMode := false; App.connectionError := "";
          App.needsCert := false; App.certUrl := ""; App.apiVersion := "v2";
          App.rooms := []; App.roomSignals := [("room-1", "emergency")];
          App.current_toast := None; App.logs := [] |};
     App.bridge := modern_bridge |}.

(** A legacy bridge that does not know the key: it has no modern
    listing, and answers any other request with status 200 and an array
    that holds one error element. *)
Definition unauthorized_v1 : network :=
  fun _ q =>
    if str_eqb (url q) "https://10.0.0.5/clip/v2/resource/light"
    then Answers {| status := 404; payload := None |}
    else
    Answers {| status := 200;
               payload := Some (VArr [VObj [("error",
                                             VObj [("type", VNum 1);
                                                   ("description", VStr "unauthorized user")])]]) |}.

(** The fields after a connection through version [v]. *)
Definition connected_with (v : api_version) (this : HueBridgeService) : HueBridgeService :=
  {| _bridgeIp := _bridgeIp this; _apiKey := _apiKey this;
     _connected := true; _apiVersion := Some v |}.

(** The modern listing decides nothing: the attempt fails, or its status
    is neither a success nor 401 nor 403. *)
Definition inconclusive (b : net_behaviour) : Prop :=
  match b with
  | Answers res => ok res = false /\ status res <> 401 /\ status res <> 403
  | Fails _ => True
  | Silent => False
  end.

(** [Array.isArray(data) && data[0]?.error] *)
Definition error_element (data : jsval) : jsval :=
  match data with
  | VArr xs => get_prop_opt (nth 0 xs VUndef) "error"
  | _ => VUndef
  end.

(** The legacy listing gives no usable answer: the attempt fails, the
    status is not a success, or the body is not JSON. *)
Definition unusable (b : net_behaviour) : Prop :=
  match b with
  | Answers res => ok res = false \/ payload res = None
  | Fails _ => True
  | Silent => False
  end.

(** A bridge that only speaks the legacy protocol and knows the key. *)
Definition legacy_only : network :=
  fun _ q =>
    if str_eqb (url q) "https://10.0.0.5/clip/v2/resource/light"
    then Answers {| status := 404; payload := None |}
    else Answers {| status := 200;
                    payload := Some (VObj [("1", VObj [("name", VStr "Lamp")])]) |}.

(** A bridge that answers the probe and nothing useful after it. *)
Definition broken : network :=
  fun tr _ =>
    match tr with
    | [] => Answers {| status := 200; payload := None |}
    | _ => Answers {| status := 500; payload := None |}
    end.



(** What a caller observes of a call: how it settled and the trace. *)
Definition observed {A : Type}
           (r : option (completion A * HueBridgeService * list request))
  : option (completion A * list request) :=
  match r with
  | Some (c, _, tr) => Some (c, tr)
  | None => None
  end.

Definition with_version (v : option api_version) (this : HueBridgeService)
  : HueBridgeService :=
  {| _bridgeIp := _bridgeIp this; _apiKey := _apiKey this;
     _connected := _connected this; _apiVersion := v |}.

(** A bridge that rejects every request with status 404 and a JSON body. *)
Definition rejecting_all : network :=
  fun _ _ =>
    Answers {| status := 404;
               payload := Some (VObj [("errors", VArr [VObj [("description", VStr "not found")]])]) |}.

(* ================================================================= *)
(** ** The handlers of the [App] component *)

(** *** The active-signal object

    [roomSignals] lists the own properties of the object; its keys are
    distinct, and the program never observes their order. *)

(** [{ ...prev, [k]: v }] *)
Fixpoint obj_set (k v : string) (o : list (string * string)) : list (string * string) :=
  match o with
  | [] => [(k, v)]
  | (k', v') :: rest =>
      if str_eqb k' k then (k, v) :: rest else (k', v') :: obj_set k v rest
  end.

(** [const next = { ...prev }; delete next[k]; return next] *)
Definition obj_delete (k : string) (o : list (string * string)) : list (string * string) :=
  filter (fun e => negb (str_eqb (fst e) k)) o.

(** The own property [k] of the object. *)
Fixpoint obj_get (k : string) (o : list (string * string)) : option string :=
  match o with
  | [] => None
  | (k', v) :: rest => if str_eqb k' k then Some v else obj_get k rest
  end.

(** *** [sendSignal] *)

(** [room.groupedLightId], when it is truthy: an absent id and the empty
    string are not. *)
Definition group_of (room : App.room) : option string :=
  match App.groupedLightId room with
  | Some g => if is_empty g then None else Some g
  | None => None
  end.

(** [for (const lid of lights) { await f(lid); }] *)
Fixpoint for_each (f : string -> M jsval) (lids : list string) : M unit :=
  match lids with
  | [] => ret tt
  | lid :: rest => _ <- f lid ;; for_each f rest
  end.

Definition update_app (a : App.state) (signals : list (string * string))
           (t : App.toast) (entries : list App.log_entry) : App.state :=
  {| App.view := App.view a; App.bridgeIp := App.bridgeIp a; App.apiKey := App.apiKey a;
     App.connected := App.connected a; App.demoMode := App.demoMode a;
     App.connectionError := App.connectionError a;
     App.needsCert := App.needsCert a; App.certUrl := App.certUrl a;
     App.apiVersion := App.apiVersion a; App.rooms := App.rooms a;
     App.roomSignals := signals;
     App.current_toast := Some t;
     App.logs := entries |}.

Section Handlers.

Variable net : network.

(** The commands that [sendSignal] issues when the application is
    connected. *)
Definition live_command (room : App.room) (signal : App.signal) : M unit :=
  if str_eqb (App.sig_id signal) "clear" then
    match group_of room with
    | Some g => _ <- turnOffGroup net g ;; ret tt
    | None => for_each (turnOff net) (App.lights room)
    end
  else
    match group_of room with
    | Some g =>
        _ <- setGroupedLightColor net g (App.sig_color signal)
                                  (Some (App.sig_brightness signal)) ;;
        ret tt
    | None =>
        for_each (fun lid => setLightColor net lid (App.sig_color signal)
                                           (Some (App.sig_brightness signal)))
                 (App.lights room)
    end.

(** [sendSignal(roomId, signalId)]; [stamp] is what the clock gives to
    [Date.now()] and to [new Date()] when the log entry is built.  The
    timer that hides the toast is not modelled. *)
Definition sendSignal (stamp : Z * Z) (roomId signalId : string)
           (s : App.system) (tr : list request) : option (App.system * list request) :=
  let a := App.app s in
  match find (fun r => str_eqb (App.room_id r) roomId) (App.rooms a),
        find (fun sg => str_eqb (App.sig_id sg) signalId) App.SIGNALS with
  | Some room, Some signal =>
      let entry ok :=
        {| App.now := fst stamp; App.date := snd stamp;
           App.call_room := App.room_name room;
           App.call_signal := App.sig_label signal;
           App.ok_flag := Some ok |} in
      match (if negb (App.demoMode a) && App.connected a
             then live_command room signal
             else ret tt) (App.bridge s) tr with
      | None => None
      | Some (Ret _, bridge', tr') =>
          Some ({| App.app :=
                     update_app a
                       (if str_eqb (App.sig_id signal) "clear"
                        then obj_delete roomId (App.roomSignals a)
                        else obj_set roomId signalId (App.roomSignals a))
                       {| App.toast_message :=
                            App.sig_label signal ++ " → " ++ App.room_name room;
                          App.toast_type := "success" |}
                       (App.addLog (entry true) (App.logs a));
                   App.bridge := bridge' |}, tr')
      | Some (Throw err, bridge', tr') =>
          Some ({| App.app :=
                     update_app a (App.roomSignals a)
                       {| App.toast_message := "Failed: " ++ err_message err;
                          App.toast_type := "error" |}
                       (App.addLog (entry false) (App.logs a));
                   App.bridge := bridge' |}, tr')
      end
  | _, _ => Some (s, tr)
  end.

(** [for (const room of rooms) { await sendSignal(room.id, "clear"); }];
    [clock i] is the reading of the clock during the call number [i]. *)
Fixpoint clear_each (clock : nat -> Z * Z) (i : nat) (todo : list App.room)
         (s : App.system) (tr : list request) : option (App.system * list request) :=
  match todo with
  | [] => Some (s, tr)
  | room :: rest =>
      match sendSignal (clock i) (App.room_id room) "clear" s tr with
      | None => None
      | Some (s', tr') => clear_each clock (S i) rest s' tr'
      end
  end.

Definition clearAll (clock : nat -> Z * Z) (s : App.system) (tr : list request)
  : option (App.system * list request) :=
  match clear_each clock 0 (App.rooms (App.app s)) s tr with
  | None => None
  | Some (s', tr') =>
      let a := App.app s' in
      Some ({| App.app :=
                 update_app a (App.roomSignals a)
                   {| App.toast_message := "All rooms cleared";
                      App.toast_type := "success" |}
                   (App.logs a);
               App.bridge := App.bridge s' |}, tr')
  end.

End Handlers.

(** The application in demonstration mode, one signal active. *)
Definition demo_system : App.system :=
  {| App.app :=
       {| App.view := "control"; App.bridgeIp := ""; App.apiKey := "";
          App.connected := false; App.demoMode := true; App.connectionError := "";
          App.needsCert := false; App.certUrl := ""; App.apiVersion := "";
          App.rooms := App.DEMO_ROOMS;
          App.roomSignals := [("room-1", "emergency"); ("room-3", "room_ready")];
          App.current_toast := None; App.logs := [] |};
     App.bridge := initial |}.

(** The application connected to a bridge of the modern protocol, with the
    demonstration rooms. *)
Definition live_system : App.system :=
  {| App.app :=
       {| App.view := "control"; App.bridgeIp := "10.0.0.5"; App.apiKey := "key";
          App.connected := true; App.demoMode := false; App.connectionError := "";
          App.needsCert := false; App.certUrl := ""; App.apiVersion := "v2";
          App.rooms := App.DEMO_ROOMS;
          App.roomSignals := [("room-1", "emergency"); ("room-3", "room_ready")];
          App.current_toast := None; App.logs := [] |};
     App.bridge := modern_bridge |}.

Definition room_2 : App.room :=
  {| App.room_id := "room-2"; App.room_name := "Room 2 — Examination";
     App.lights := ["light-2a"; "light-2b"]; App.groupedLightId := Some "group-2" |}.

Definition doctor_needed : App.signal :=
  {| App.sig_id := "doctor_needed"; App.sig_label := "Doctor Needed";
     App.sig_color := App.xy 0.154 0.08; App.sig_hex := "#3b82f6";
     App.sig_brightness := 100; App.sig_priority := 3 |}.

(** How a checked call settles on what the network does with its request:
    a status that is not a success raises an [Error] with the given text,
    a success gives what the body parses to.  [None]: it does not settle. *)
Definition checked (text : string) (b : net_behaviour) : option (completion jsval) :=
  match b with
  | Answers res => Some (if negb (ok res) then Throw (Err "Error" text) else json res)
  | Fails e => Some (Throw e)
  | Silent => None
  end.


(** The request that switches a group off. *)
Definition group_off_request (this : HueBridgeService) (groupId : string) : request :=
  match _apiVersion this with
  | Some v2 => put_v2 this ("/resource/grouped_light/" ++ groupId) off_v2
  | _ => put_v1 this ("/groups/" ++ groupId ++ "/action") off_v1
  end.


(** The request that gives a group the colour and brightness of a signal. *)
Definition group_colour_request (this : HueBridgeService) (groupId : string)
           (color : jsval) (brightness : float) : request :=
  match _apiVersion this with
  | Some v2 =>
      put_v2 this ("/resource/grouped_light/" ++ groupId)
             (body_v2 (get_prop_opt color "x") (get_prop_opt color "y") brightness)
  | _ =>
      put_v1 this ("/groups/" ++ groupId ++ "/action")
             (body_v1 (get_prop_opt color "x") (get_prop_opt color "y") brightness)
  end.



(** The request by which a signal reaches a group. *)
Definition group_request (this : HueBridgeService) (signal : App.signal)
           (groupId : string) : request :=
  if str_eqb (App.sig_id signal) "clear"
  then group_off_request this groupId
  else group_colour_request this groupId (App.sig_color signal) (App.sig_brightness signal).

(** The bridge accepts the request: a success status and a JSON body. *)
Definition accepted (b : net_behaviour) : Prop :=
  exists res, b = Answers res /\ ok res = true /\ payload res <> None.

(** The bridge turns the request down: a failed attempt, a status that is
    not a success, or a body that is not JSON. *)
Definition turned_down (b : net_behaviour) : Prop :=
  match b with
  | Answers res => ok res = false \/ payload res = None
  | Fails _ => True
  | Silent => False
  end.





(** The last entry of the configuration. *)
Definition clear_signal : App.signal :=
  {| App.sig_id := "clear"; App.sig_label := "Clear / Off";
     App.sig_color := VNull; App.sig_hex := "#71717a";
     App.sig_brightness := 0; App.sig_priority := 0 |}.

(** The application is not in touch with a bridge. *)
Definition offline (s : App.system) : Prop :=
  App.demoMode (App.app s) = true \/ App.connected (App.app s) = false.


(** A clock that counts the calls. *)
Definition ticking : nat -> Z * Z := fun i => (Z.of_nat i, Z.of_nat i).

(** *** [handleConnect] *)

(** A call of one of the state setters of the component, with its
    argument as the handler computes it.  [SetConnectionError None] is a
    call with [undefined]; [SetRooms] carries the mapped array, which holds
    whatever the bridge sent. *)
Inductive setter : Type :=
| SetConnectionError (e : option message)
| SetNeedsCert (b : bool)
| SetCertUrl (u : string)
| SetConnected (b : bool)
| SetDemoMode (b : bool)
| SetApiVersion (v : string)
| SetRooms (mapped : jsval)
| ShowToast (text type : string).

(** What a handler did: the setters it called, in order, and the
    exception it rejected with, if any. *)
Record handled : Type := Handled {
  calls : list setter;
  rejected : option js_error
}.

Definition version_name (v : api_version) : string :=
  match v with
  | v2 => "v2"
  | v1 => "v1"
  end.

(** [xs.find(f)] where [f] may throw. *)
Fixpoint find_completion {A : Type} (f : A -> completion bool) (xs : list A)
  : completion (option A) :=
  match xs with
  | [] => Ret None
  | x :: rest =>
      match f x with
      | Throw e => Throw e
      | Ret true => Ret (Some x)
      | Ret false => find_completion f rest
      end
  end.

(** [(c) => c.rtype === "s"] *)
Definition has_rtype (s : string) (c : jsval) : completion bool :=
  match get_prop c "rtype" with
  | Throw e => Throw e
  | Ret t => Ret (strict_eq_str t s)
  end.

(** [r.children?.filter((c) => c.rtype === "device").map((c) => c.rid) || []]:
    a value that is neither nullish nor an array has no [filter] to call. *)
Definition lights_of (children : jsval) : completion jsval :=
  match children with
  | VUndef | VNull => Ret (VArr [])
  | VArr cs =>
      match filter_completion (has_rtype "device") cs with
      | Throw e => Throw e
      | Ret devices => Ret (VArr (map (fun c => get_prop_opt c "rid") devices))
      end
  | _ => Throw TypeError
  end.

(** [r.services?.find((s) => s.rtype === "grouped_light")?.rid] *)
Definition group_id_of (services : jsval) : completion jsval :=
  match services with
  | VUndef | VNull => Ret VUndef
  | VArr ss =>
      match find_completion (has_rtype "grouped_light") ss with
      | Throw e => Throw e
      | Ret (Some s) => Ret (get_prop_opt s "rid")
      | Ret None => Ret VUndef
      end
  | _ => Throw TypeError
  end.

(** The callback that [handleConnect] maps over the rooms of the bridge. *)
Definition map_room (r : jsval) : completion jsval :=
  match get_prop r "id" with
  | Throw e => Throw e
  | Ret id =>
      let name := get_prop_opt (get_prop_opt r "metadata") "name" in
      match lights_of (get_prop_opt r "children") with
      | Throw e => Throw e
      | Ret lights =>
          match group_id_of (get_prop_opt r "services") with
          | Throw e => Throw e
          | Ret g =>
              Ret (VObj [("id", id);
                         ("name", if truthy name then name else id);
                         ("lights", lights);
                         ("groupedLightId", g)])
          end
      end
  end.

(** [bridgeRooms.map(...)]: only an array has a [map] to call. *)
Definition map_rooms (bridgeRooms : jsval) : completion jsval :=
  match bridgeRooms with
  | VArr rs =>
      match map_completion map_room rs with
      | Throw e => Throw e
      | Ret mapped => Ret (VArr mapped)
      end
  | _ => Throw TypeError
  end.

(** The body of the [try] block that fetches the rooms: the call of
    [setRooms] it makes, if any.  Its [catch] clause is empty. *)
Definition rooms_update (fetched : completion jsval) : list setter :=
  match fetched with
  | Throw _ => []
  | Ret bridgeRooms =>
      match map_rooms bridgeRooms with
      | Ret (VArr (r :: rs)) => [SetRooms (VArr (r :: rs))]
      | _ => []
      end
  end.

Definition resets : list setter :=
  [SetConnectionError (Some (Text "")); SetNeedsCert false; SetCertUrl ""].

Section Connecting.

Variable net : network.

(** [handleConnect], from the host and the key that the form holds. *)
Definition handleConnect (a : App.state) (this : HueBridgeService) (tr : list request)
  : option (handled * HueBridgeService * list request) :=
  if is_empty (App.bridgeIp a) || is_empty (App.apiKey a) then
    Some ({| calls := [SetConnectionError
                         (Some (Text "Please enter both Bridge IP and API key."));
                       SetNeedsCert false];
             rejected := None |}, this, tr)
  else
    match testConnection net (configure (App.bridgeIp a) (App.apiKey a) this) tr with
    | None => None
    | Some (Throw e, this1, tr1) =>
        Some ({| calls := resets; rejected := Some e |}, this1, tr1)
    | Some (Ret result, this1, tr1) =>
        if success result then
          let announced :=
            (resets ++
             [SetConnected true; SetDemoMode false;
              SetApiVersion match negotiated result with
                            | Some v => version_name v
                            | None => ""
                            end;
              ShowToast ("Connected via API " ++
                         match negotiated result with
                         | Some v => version_name v
                         | None => "undefined"
                         end) "success"])%list in
          match getRooms net this1 tr1 with
          | None => None
          | Some (fetched, this2, tr2) =>
              Some ({| calls := (announced ++ rooms_update fetched)%list;
                       rejected := None |}, this2, tr2)
          end
        else
          match needsCert result with
          | Some true =>
              Some ({| calls :=
                         (resets ++
                          [SetNeedsCert true;
                           SetCertUrl match certUrl result with
                                      | Some u => if is_empty u
                                                  then getCertAcceptUrl this1 else u
                                      | None => getCertAcceptUrl this1
                                      end;
                           SetConnectionError (error result)])%list;
                       rejected := None |}, this1, tr1)
          | _ =>
              Some ({| calls := (resets ++ [SetConnectionError (error result)])%list;
                       rejected := None |}, this1, tr1)
          end
    end.

End Connecting.

(** An entry of the legacy group list whose type is "Room". *)
Definition is_room (e : string * jsval) : bool :=
  strict_eq_str (get_prop_opt (snd e) "type") "Room".

(** The members of a legacy group. *)
Definition lights_list (g : jsval) : list jsval :=
  match get_prop_opt g "lights" with
  | VArr ls => ls
  | _ => []
  end.

(** The room that the application shows for an entry of the legacy group
    list. *)
Definition shown_room (e : string * jsval) : jsval :=
  let name := get_prop_opt (snd e) "name" in
  VObj [("id", VStr (fst e));
        ("name", if truthy name then name else VStr (fst e));
        ("lights", VArr (lights_list (snd e)));
        ("groupedLightId", VStr (fst e))].

(** An entry of the legacy group list is an object, and the [lights]
    member of a room is an array or is missing. *)
Definition plain_group (e : string * jsval) : Prop :=
  (exists props, snd e = VObj props) /\
  (is_room e = true ->
   (exists ls, get_prop_opt (snd e) "lights" = VArr ls) \/
   truthy (get_prop_opt (snd e) "lights") = false).

(** A legacy bridge with a room of two lights, a zone, and a room without
    a name. *)
Definition legacy_groups : jsval :=
  VObj [("1", VObj [("name", VStr "Exam"); ("lights", VArr [VStr "3"; VStr "4"]);
                    ("type", VStr "Room")]);
        ("2", VObj [("name", VStr "Upstairs"); ("lights", VArr [VStr "3"]);
                    ("type", VStr "Zone")]);
        ("7", VObj [("lights", VArr []); ("type", VStr "Room")])].

Definition legacy_house : network :=
  fun _ _ => Answers {| status := 200; payload := Some legacy_groups |}.

(* ================================================================= *)
(** * Properties *)

(** ** Strings *)

Lemma append_assoc (a b c : string) : (a ++ b) ++ c = a ++ (b ++ c).
Proof.
  induction a as [|x a IH]; simpl.
  - reflexivity.
  - now rewrite IH.
Qed.

Lemma append_empty_r (a : string) : a ++ "" = a.
Proof.
  induction a as [|x a IH]; simpl; [reflexivity | now rewrite IH].
Qed.

Lemma append_inj_l (a b c : string) : a ++ b = a ++ c -> b = c.
Proof.
  induction a as [|x a IH]; simpl; intros H.
  - exact H.
  - injection H as H. now apply IH.
Qed.

Lemma length_append (a b : string) :
  String.length (a ++ b) = (String.length a + String.length b)%nat.
Proof.
  induction a as [|x a IH]; simpl; [reflexivity | now rewrite IH].
Qed.

Lemma prefix_drop (p s : string) :
  String.prefix p s = true -> s = p ++ drop (String.length p) s.
Proof.
  revert s. induction p as [|x p IH]; intros s H.
  - reflexivity.
  - destruct s as [|y s]; simpl in H; [discriminate|].
    destruct (ascii_dec x y) as [->|]; [|discriminate].
    simpl. f_equal. now apply IH.
Qed.

Lemma is_empty_true (s : string) : is_empty s = true -> s = "".
Proof. destruct s; [reflexivity | discriminate]. Qed.

(** What [strip_suffix_while] removes is a run of characters satisfying
    [p], and what it leaves does not end with one. *)
Lemma strip_suffix_while_spec (p : ascii -> bool) (s : string) :
  exists suffix,
    s = strip_suffix_while p s ++ suffix /\
    all_chars p suffix = true /\
    (forall c, last_char (strip_suffix_while p s) = Some c -> p c = false).
Proof.
  induction s as [|x s (suffix & Hs & Hall & Hlast)]; simpl.
  - exists "". split; [reflexivity|]. split; [reflexivity|].
    intros c H; discriminate.
  - destruct (p x) eqn:Hx; simpl.
    + destruct (is_empty (strip_suffix_while p s)) eqn:He.
      * apply is_empty_true in He. rewrite He in Hs. simpl in Hs. subst suffix.
        exists (String x s). simpl. rewrite Hx, Hall.
        split; [reflexivity|]. split; [reflexivity|].
        intros c H; discriminate.
      * exists suffix. simpl. rewrite <- Hs.
        split; [reflexivity|]. split; [assumption|].
        intros c H. apply Hlast.
        destruct (strip_suffix_while p s); [discriminate | exact H].
    + exists suffix. simpl. rewrite <- Hs.
      split; [reflexivity|]. split; [assumption|].
      intros c H. destruct (strip_suffix_while p s) eqn:E.
      * injection H as <-. exact Hx.
      * apply Hlast. exact H.
Qed.

Lemma strip_scheme_spec (s : string) :
  exists scheme,
    s = scheme ++ strip_scheme s /\
    (scheme = "" \/ scheme = "http://" \/ scheme = "https://") /\
    (scheme = "" ->
     String.prefix "http://" s = false /\ String.prefix "https://" s = false).
Proof.
  unfold strip_scheme.
  destruct (String.prefix "https://" s) eqn:H8.
  - exists "https://". split; [now apply prefix_drop in H8|].
    split; [auto | discriminate].
  - destruct (String.prefix "http://" s) eqn:H7.
    + exists "http://". split; [now apply prefix_drop in H7|].
      split; [auto | discriminate].
    + exists "". auto.
Qed.

(** ** The activity log *)

Lemma logs_after_snoc (calls : list App.log_call) (c : App.log_call) :
  App.logs_after (calls ++ [c])%list = App.addLog c (App.logs_after calls).
Proof. unfold App.logs_after. now rewrite fold_left_app. Qed.

Lemma logs_after_window (calls : list App.log_call) :
  App.logs_after calls = firstn 50 (rev (map App.entry_of calls)).
Proof.
  induction calls as [|c calls IH] using rev_ind.
  - reflexivity.
  - rewrite logs_after_snoc, map_app, rev_app_distr. simpl rev. simpl app.
    unfold App.addLog, App.slice0. rewrite IH.
    change (firstn 50 (App.entry_of c :: rev (map App.entry_of calls)))
      with (App.entry_of c :: firstn 49 (rev (map App.entry_of calls))).
    f_equal. rewrite firstn_firstn. reflexivity.
Qed.

(** C10.  Every call of [addLog] puts exactly one new entry at the front
    of the log, in front of the 49 newest entries it held; after any
    sequence of calls from the empty log, the log is the 50 newest
    entries, newest first, so it never holds more than 50. *)
Theorem activity_log_bounded (calls : list App.log_call) (c : App.log_call) :
  App.logs_after (calls ++ [c])%list
    = (App.entry_of c :: firstn 49 (App.logs_after calls))%list /\
  App.logs_after calls = firstn 50 (rev (map App.entry_of calls)) /\
  (List.length (App.logs_after calls) = Nat.min (List.length calls) 50)%nat /\
  (List.length (App.logs_after calls) <= 50)%nat.
Proof.
  split; [apply logs_after_snoc|].
  split; [apply logs_after_window|].
  rewrite logs_after_window, length_firstn, length_rev, length_map.
  split; lia.
Qed.

(** ** [configure] *)

(** C6, as stated, fails: the pattern [/^https?:\/\//] has no [i] flag and
    is applied once, so a scheme written with a capital letter is not a
    match.  The host is stored with its scheme prefix, and the address
    built from it carries two. *)
Lemma configure_keeps_capital_scheme :
  let this' := configure "Https://192.168.1.20" "key" modern_bridge in
  _bridgeIp this' = Some "Https://192.168.1.20" /\
  String.prefix "Https://" (template (_bridgeIp this')) = true /\
  getCertAcceptUrl this' = "https://Https://192.168.1.20/api" /\
  _connected this' = false /\
  _apiVersion this' = None.
Proof. repeat split. Qed.

(** C6, amended.  Whatever the fields held before, [configure] leaves the
    connected flag false and the negotiated version unset, stores the
    trimmed key, and stores as host the trimmed input without one leading
    lower-case [http://] or [https://] prefix, if it has one, and without
    its trailing slashes. *)
Theorem configure_resets_and_normalizes
        (this : HueBridgeService) (ip apiKey : string) :
  let this' := configure ip apiKey this in
  _connected this' = false /\
  _apiVersion this' = None /\
  _apiKey this' = Some (trim apiKey) /\
  exists host scheme slashes,
    _bridgeIp this' = Some host /\
    trim ip = scheme ++ host ++ slashes /\
    (scheme = "" \/ scheme = "http://" \/ scheme = "https://") /\
    (scheme = "" ->
     String.prefix "http://" (trim ip) = false /\
     String.prefix "https://" (trim ip) = false) /\
    all_chars is_slash slashes = true /\
    last_char host <> Some "/"%char.
Proof.
  simpl. repeat split.
  destruct (strip_scheme_spec (trim ip)) as (scheme & Hs & Hcases & Hnone).
  destruct (strip_suffix_while_spec is_slash (strip_scheme (trim ip)))
    as (slashes & Hsl & Hall & Hlast).
  exists (strip_trailing_slashes (strip_scheme (trim ip))), scheme, slashes.
  unfold strip_trailing_slashes.
  repeat split; try assumption.
  - rewrite <- Hsl. exact Hs.
  - now apply Hnone.
  - now apply Hnone.
  - intros H. apply Hlast in H. discriminate.
Qed.

Example configure_strips :
  configure "  https://192.168.1.20/// " " key "
            {| _bridgeIp := Some "10.0.0.5"; _apiKey := Some "old";
               _connected := true; _apiVersion := Some v2 |}
  = {| _bridgeIp := Some "192.168.1.20"; _apiKey := Some "key";
       _connected := false; _apiVersion := None |}.
Proof. reflexivity. Qed.

(** ** The reachability probe *)

(** C1.  For a host that is not local, the probe sends exactly one request,
    a GET of [https://<host>/api] that is aborted after 5000 ms, and
    settles with: reachable when a response comes back, whatever its
    status; unreachable for cause [network] when the request is aborted
    (nothing settled it before the timer, or the exception is an
    [AbortError]); unreachable for cause [cert] on any other exception. *)
Theorem checkReachability_classifies
        (net : network) (this : HueBridgeService) (tr : list request) :
  opt_startsWith (_bridgeIp this) "localhost" = false ->
  checkReachability net this tr
  = Some (Ret match net tr (diagnostic_request this) with
              | Answers _ => {| reachable := true; reason := None |}
              | Silent => unreachable "network"
              | Fails err =>
                  if str_eqb (err_name err) "AbortError"
                  then unreachable "network"
                  else unreachable "cert"
              end,
          this, (tr ++ [diagnostic_request this])%list).
Proof.
  intros Hremote.
  unfold checkReachability, bind, read, try_catch, fetch, probe_request.
  rewrite Hremote. fold (diagnostic_request this).
  destruct (net tr (diagnostic_request this)) as [res|err|]; simpl.
  - reflexivity.
  - destruct (str_eqb (err_name err) "AbortError"); reflexivity.
  - reflexivity.
Qed.

Lemma checkReachability_classifies_witness :
  checkReachability refusing remote_bridge []
  = Some (Ret (unreachable "cert"), remote_bridge, [diagnostic_request remote_bridge]).
Proof.
  exact (checkReachability_classifies refusing remote_bridge [] eq_refl).
Defined.

(** C3, as stated, fails: a host where nothing listens and the attempt is
    refused gives no response, and the probe reports [cert]. *)
Lemma refused_connection_is_cert :
  ~ (forall (net : network) (this : HueBridgeService) (tr : list request),
        opt_startsWith (_bridgeIp this) "localhost" = false ->
        (forall res, net tr (probe_request this) <> Answers res) ->
        exists this' tr',
          checkReachability net this tr = Some (Ret (unreachable "network"), this', tr')).
Proof.
  intros claim.
  destruct (claim refusing remote_bridge [] eq_refl) as (this' & tr' & H).
  - intros res. discriminate.
  - vm_compute in H. discriminate.
Qed.

(** C3, amended.  When nothing settles the probe of a host that is not
    local before its timer aborts it, or the attempt ends in an
    [AbortError], the probe reports cause [network]; so does every failed
    attempt for a local host. *)
Theorem checkReachability_timeout_is_network
        (net : network) (this : HueBridgeService) (tr : list request) :
  (opt_startsWith (_bridgeIp this) "localhost" = false /\
   (net tr (probe_request this) = Silent \/
    exists err, net tr (probe_request this) = Fails err /\
                err_name err = "AbortError")) \/
  (opt_startsWith (_bridgeIp this) "localhost" = true /\
   exists err, net tr (probe_request this) = Fails err) ->
  checkReachability net this tr
  = Some (Ret (unreachable "network"), this, (tr ++ [probe_request this])%list).
Proof.
  unfold checkReachability, bind, read, try_catch, fetch.
  intros [(Hremote & [Hnet | (err & Hnet & Hname)]) | (Hlocal & err & Hnet)].
  - rewrite Hremote, Hnet. unfold probe_request. rewrite Hremote. reflexivity.
  - rewrite Hremote, Hnet. simpl. rewrite Hname. reflexivity.
  - rewrite Hlocal, Hnet. reflexivity.
Qed.

Lemma checkReachability_timeout_is_network_witness :
  checkReachability silent remote_bridge []
  = Some (Ret (unreachable "network"), remote_bridge, [probe_request remote_bridge]).
Proof.
  apply (checkReachability_timeout_is_network silent remote_bridge []).
  left. split; [reflexivity | left; reflexivity].
Defined.

(** ** [testConnection] *)

Lemma probe_url (this : HueBridgeService) :
  url (probe_request this) = _bridgeOrigin this ++ "/api".
Proof.
  unfold probe_request, _bridgeOrigin.
  destruct (opt_startsWith (_bridgeIp this) "localhost"); reflexivity.
Qed.

Lemma checkReachability_answered
      (net : network) (this : HueBridgeService) (tr : list request) (res : response) :
  net tr (probe_request this) = Answers res ->
  checkReachability net this tr
  = Some (Ret {| reachable := true; reason := None |}, this,
          (tr ++ [probe_request this])%list).
Proof.
  intros H. unfold checkReachability, bind, read, try_catch, fetch.
  destruct (opt_startsWith (_bridgeIp this) "localhost"); rewrite H; reflexivity.
Qed.

Lemma probe_is_not_legacy_listing (this : HueBridgeService) :
  url (probe_request this) <> url (list_lights_v1 this).
Proof.
  rewrite probe_url. unfold list_lights_v1, _baseUrlV1. simpl url.
  intros H. apply (f_equal String.length) in H.
  rewrite !length_append in H. simpl in H. lia.
Qed.

Lemma modern_listing_is_not_legacy_listing (this : HueBridgeService) :
  url (list_lights_v2 this) <> url (list_lights_v1 this).
Proof.
  unfold list_lights_v2, list_lights_v1, _baseUrlV2, _baseUrlV1. simpl url.
  rewrite !append_assoc. intros H. apply append_inj_l in H.
  simpl in H. discriminate.
Qed.

Lemma bind_settled {A B : Type} (m : M A) (k : A -> M B)
      (this this' : HueBridgeService) (tr tr' : list request) (a : A) :
  m this tr = Some (Ret a, this', tr') ->
  bind m k this tr = k a this' tr'.
Proof. intros H. unfold bind. now rewrite H. Qed.

Lemma try_v2_rejected
      (net : network) (this : HueBridgeService) (tr : list request) (res : response) :
  net tr (list_lights_v2 this) = Answers res ->
  status res = 401 \/ status res = 403 ->
  try_v2 net this tr
  = Some (Ret (Some (failure (Text "Invalid API key."))),
          with_connected false this, (tr ++ [list_lights_v2 this])%list).
Proof.
  intros Hnet Hstatus.
  assert (Hok : ok res = false)
    by (unfold ok; destruct Hstatus as [-> | ->]; reflexivity).
  assert (Hauth : (status res =? 403) || (status res =? 401) = true)
    by (destruct Hstatus as [-> | ->]; reflexivity).
  unfold try_v2, try_catch, bind, read, fetch.
  rewrite Hnet, Hok, Hauth. reflexivity.
Qed.

(** C2.  When the bridge answers the modern light listing with status 401
    or 403, [testConnection] returns the failure "Invalid API key." with
    the connected flag false, and the requests of the run are the probe and
    the modern listing only: none goes to the legacy listing. *)
Theorem testConnection_rejected_key_no_fallback
        (net : network) (this : HueBridgeService) (tr : list request)
        (probe_res res : response) :
  net tr (probe_request this) = Answers probe_res ->
  net (tr ++ [probe_request this])%list (list_lights_v2 this) = Answers res ->
  status res = 401 \/ status res = 403 ->
  testConnection net this tr
  = Some (Ret (failure (Text "Invalid API key.")),
          with_connected false this,
          (tr ++ [probe_request this; list_lights_v2 this])%list) /\
  url (probe_request this) <> url (list_lights_v1 this) /\
  url (list_lights_v2 this) <> url (list_lights_v1 this).
Proof.
  intros Hprobe Hmodern Hstatus.
  split; [|split; [apply probe_is_not_legacy_listing
                  | apply modern_listing_is_not_legacy_listing]].
  unfold testConnection.
  rewrite (bind_settled _ _ _ _ _ _ _
             (checkReachability_answered net this tr probe_res Hprobe)).
  cbn [reachable negb].
  rewrite (bind_settled _ _ _ _ _ _ _
             (try_v2_rejected net this _ res Hmodern Hstatus)).
  unfold ret. rewrite <- app_assoc. reflexivity.
Qed.

Lemma testConnection_rejected_key_no_fallback_witness :
  testConnection rejecting remote_bridge []
  = Some (Ret (failure (Text "Invalid API key.")),
          with_connected false remote_bridge,
          [probe_request remote_bridge; list_lights_v2 remote_bridge]) /\
  url (probe_request remote_bridge) <> url (list_lights_v1 remote_bridge) /\
  url (list_lights_v2 remote_bridge) <> url (list_lights_v1 remote_bridge).
Proof.
  apply (testConnection_rejected_key_no_fallback rejecting remote_bridge []
           {| status := 200; payload := Some (VObj []) |}
           {| status := 403; payload := Some (VObj [("errors", VArr [])]) |}).
  - reflexivity.
  - reflexivity.
  - right. reflexivity.
Defined.

(** ** The light and group methods leave the fields alone *)

Lemma keeps_ret {A : Type} (a : A) : keeps_fields (ret a).
Proof. intros this tr c this' tr' H. unfold ret in H. congruence. Qed.

Lemma keeps_throw {A : Type} (e : js_error) : keeps_fields (@throw A e).
Proof. intros this tr c this' tr' H. unfold throw in H. congruence. Qed.

Lemma keeps_lift {A : Type} (c : completion A) : keeps_fields (lift c).
Proof. intros this tr c' this' tr' H. unfold lift in H. congruence. Qed.

Lemma keeps_read : keeps_fields read.
Proof. intros this tr c this' tr' H. unfold read in H. congruence. Qed.

Lemma keeps_fetch (net : network) (q : request) : keeps_fields (fetch net q).
Proof.
  intros this tr c this' tr' H. unfold fetch in H.
  destruct (net tr q); [| |destruct (abort_after q)]; congruence.
Qed.

Lemma keeps_bind {A B : Type} (m : M A) (k : A -> M B) :
  keeps_fields m -> (forall a, keeps_fields (k a)) -> keeps_fields (bind m k).
Proof.
  intros Hm Hk this tr c this' tr' H. unfold bind in H.
  destruct (m this tr) as [[[[a|e] this1] tr1]|] eqn:E; [| |discriminate].
  - apply Hm in E. apply Hk in H. congruence.
  - apply Hm in E. congruence.
Qed.

Ltac keeps :=
  repeat first
    [ apply keeps_ret | apply keeps_throw | apply keeps_lift
    | apply keeps_read | apply keeps_fetch
    | apply keeps_bind; [|intros ?]
    | match goal with
      | |- keeps_fields (match ?x with _ => _ end) => destruct x
      end ].

Lemma call_keeps_fields (net : network) (op : operation) :
  keeps_fields (call net op).
Proof.
  destruct op; simpl;
    unfold getLights, getRooms, setLightColor, setGroupedLightColor,
           turnOff, turnOffGroup, signalLight;
    cbv zeta; keeps.
Qed.

Lemma session_keeps_fields
      (net : network) (ops : list operation) (this this' : HueBridgeService)
      (tr tr' : list request) :
  session net ops this tr = Some (this', tr') -> this' = this.
Proof.
  revert this tr. induction ops as [|op ops IH]; simpl; intros this tr H.
  - congruence.
  - destruct (call net op this tr) as [[[c this1] tr1]|] eqn:Hcall; [|discriminate].
    apply call_keeps_fields in Hcall. apply IH in H. congruence.
Qed.

(** Case analysis on what decides a run: the innermost scrutinee first. *)
Ltac split_run H :=
  repeat (match type of H with
          | context [match ?x with _ => _ end] =>
              lazymatch x with
              | context [match _ with _ => _ end] => fail
              | _ => destruct x eqn:?
              end
          end; cbn [fst snd] in H);
  try discriminate.

Lemma testConnection_success
      (net : network) (this this1 : HueBridgeService) (tr tr1 : list request)
      (r : test_result) :
  testConnection net this tr = Some (Ret r, this1, tr1) ->
  success r = true ->
  exists v,
    negotiated r = Some v /\
    this1 = {| _bridgeIp := _bridgeIp this; _apiKey := _apiKey this;
               _connected := true; _apiVersion := Some v |}.
Proof.
  intros H Hsuccess.
  unfold testConnection, checkReachability, try_v2, try_v1, bind, read, lift, ret,
         try_catch, fetch, set_connected, set_apiVersion, reason_is in H.
  cbn [abort_after probe_request list_lights_v2 list_lights_v1] in H.
  split_run H;
    injection H as <- <- <-; try discriminate Hsuccess.
  all: eexists; split; reflexivity.
Qed.

(** C7.  After a [testConnection] that succeeds, the negotiated version is
    the one it returned, and no sequence of light and group methods
    changes it, nor the stored host, nor the stored key. *)
Theorem negotiated_version_is_stable
        (net : network) (this this1 this2 : HueBridgeService)
        (tr tr1 tr2 : list request) (r : test_result) (ops : list operation) :
  testConnection net this tr = Some (Ret r, this1, tr1) ->
  success r = true ->
  session net ops this1 tr1 = Some (this2, tr2) ->
  _apiVersion this1 = negotiated r /\
  negotiated r <> None /\
  _apiVersion this2 = _apiVersion this1 /\
  _bridgeIp this2 = _bridgeIp this1 /\
  _apiKey this2 = _apiKey this1.
Proof.
  intros Htest Hsuccess Hsession.
  destruct (testConnection_success _ _ _ _ _ _ Htest Hsuccess) as (v & Hv & ->).
  apply session_keeps_fields in Hsession. subst this2.
  rewrite Hv. simpl. repeat split. discriminate.
Qed.

Lemma negotiated_version_is_stable_witness :
  exists this1 tr1 this2 tr2,
    testConnection obliging local_bridge [] = Some (Ret (connected_via v2), this1, tr1) /\
    session obliging sample_session this1 tr1 = Some (this2, tr2) /\
    _apiVersion this1 = Some v2 /\
    Some v2 <> None /\
    _apiVersion this2 = _apiVersion this1 /\
    _bridgeIp this2 = _bridgeIp this1 /\
    _apiKey this2 = _apiKey this1.
Proof.
  do 4 eexists.
  split; [reflexivity|]. split; [reflexivity|].
  eapply (negotiated_version_is_stable obliging local_bridge _ _ [] _ _
            (connected_via v2) sample_session);
    reflexivity.
Defined.

(** ** The payloads *)

Lemma fetch_then_sends {A : Type} (net : network) (q : request) (k : response -> M A)
      (this : HueBridgeService) (tr : list request) :
  (forall res, exists c, k res this (tr ++ [q])%list = Some (c, this, (tr ++ [q])%list)) ->
  sends net (bind (fetch net q) k) this tr q.
Proof.
  intros Hk Hnet. unfold bind, fetch.
  destruct (net tr q) as [res|e|]; [apply Hk | eauto | contradiction].
Qed.

Lemma check_ok_settles (res : response) (e : js_error)
      (this : HueBridgeService) (tr : list request) :
  exists c,
    (if negb (ok res) then throw e else lift (json res)) this tr = Some (c, this, tr).
Proof. destruct (negb (ok res)); unfold throw, lift; eauto. Qed.


Lemma setGroupedLightColor_sends
      (net : network) (this : HueBridgeService) (tr : list request)
      (groupId : string) (color cx cy : jsval) (brightness : option float) :
  get_prop color "x" = Ret cx ->
  get_prop color "y" = Ret cy ->
  sends net (setGroupedLightColor net groupId color brightness) this tr
        match _apiVersion this with
        | Some v2 => put_v2 this ("/resource/grouped_light/" ++ groupId)
                            (body_v2 cx cy (default_brightness brightness))
        | _ => put_v1 this ("/groups/" ++ groupId ++ "/action")
                      (body_v1 cx cy (default_brightness brightness))
        end.
Proof.
  intros Hx Hy. unfold setGroupedLightColor. cbv zeta.
  unfold sends, bind at 1, read.
  destruct (_apiVersion this) as [[|]|]; rewrite Hx, Hy;
    unfold bind at 1, lift; unfold bind at 1;
    apply fetch_then_sends; intros res; apply check_ok_settles.
Qed.

Lemma rounded_254_nearest (b : Z) :
  100 * rounded_254 b - 50 <= 254 * b < 100 * rounded_254 b + 50.
Proof.
  unfold rounded_254.
  pose proof (Z.div_mod (254 * b + 50) 100 ltac:(lia)) as Hdiv.
  pose proof (Z.mod_pos_bound (254 * b + 50) 100 ltac:(lia)) as Hmod.
  lia.
Qed.

(** The program computes in binary64; on the integer percentages the
    result is the exact rounding. *)
Lemma bri_v1_table :
  Forall (fun n => bri_v1 (float_of_Z (Z.of_nat n)) = float_of_Z (rounded_254 (Z.of_nat n)))
         (seq 0 101).
Proof.
  cbv [seq].
  repeat (apply Forall_cons; [vm_compute; reflexivity|]).
  apply Forall_nil.
Qed.

Lemma bri_v1_percentage (b : Z) :
  0 <= b <= 100 -> bri_v1 (float_of_Z b) = float_of_Z (rounded_254 b).
Proof.
  intros Hb.
  pose proof bri_v1_table as Htable. rewrite Forall_forall in Htable.
  specialize (Htable (Z.to_nat b)). rewrite Z2Nat.id in Htable by lia.
  apply Htable. apply in_seq. lia.
Qed.

(** Every signal of the configuration has an integer percentage. *)
Lemma signals_have_percentages :
  Forall (fun s => exists b, 0 <= b <= 100 /\ App.sig_brightness s = float_of_Z b)
         App.SIGNALS.
Proof.
  unfold App.SIGNALS.
  repeat (apply Forall_cons;
          [first [ exists 80; split; [lia | reflexivity]
                 | exists 100; split; [lia | reflexivity]
                 | exists 0; split; [lia | reflexivity] ] |]).
  apply Forall_nil.
Qed.



Lemma float_203_is_not_204 : 203%float <> 204%float.
Proof.
  intros H. apply (f_equal (fun x => PrimFloat.eqb x 203%float)) in H.
  vm_compute in H. discriminate.
Qed.

(** C4, as stated, fails: 80 / 100 is 0.8 and 0.8 * 254 is 203.2, which
    rounds to 203; the body sent carries [bri: 203], not 204. *)
Lemma legacy_group_scenario_sends_203 :
  setGroupedLightColor obliging "group-2" (App.xy 0.17 0.7) (Some 80%float)
                       legacy_bridge []
  = Some (Ret (VObj [("data", VArr [])]), legacy_bridge,
          [group_2_action legacy_bridge 203]) /\
  group_2_action legacy_bridge 203 <> group_2_action legacy_bridge 204.
Proof.
  split; [reflexivity|].
  intros H. apply float_203_is_not_204.
  apply (f_equal (fun q => match body q with
                           | Some (VObj [_; (_, VNum bri); _]) => bri
                           | _ => 0%float
                           end)) in H.
  exact H.
Qed.

(** C4, amended.  Under the legacy protocol, [setGroupedLightColor] with
    group [group-2], colour (0.17, 0.70) and brightness 80 sends a PUT to
    [.../groups/group-2/action] with the body
    [{on: true, bri: 203, xy: [0.17, 0.70]}]. *)
Theorem setGroupedLightColor_legacy_scenario
        (net : network) (this : HueBridgeService) (tr : list request) :
  _apiVersion this = Some v1 ->
  net tr (group_2_action this 203) <> Silent ->
  exists c,
    setGroupedLightColor net "group-2" (App.xy 0.17 0.7) (Some 80%float) this tr
    = Some (c, this, (tr ++ [group_2_action this 203])%list).
Proof.
  intros Hv1 Hnet.
  pose proof (setGroupedLightColor_sends net this tr "group-2" (App.xy 0.17 0.7)
                (VNum 0.17) (VNum 0.7) (Some 80%float) eq_refl eq_refl) as Hsends.
  rewrite Hv1 in Hsends. apply Hsends.
  exact Hnet.
Qed.

Lemma setGroupedLightColor_legacy_scenario_witness :
  exists c,
    setGroupedLightColor obliging "group-2" (App.xy 0.17 0.7) (Some 80%float)
                         legacy_bridge []
    = Some (c, legacy_bridge, [group_2_action legacy_bridge 203]).
Proof.
  apply (setGroupedLightColor_legacy_scenario obliging legacy_bridge []).
  - reflexivity.
  - discriminate.
Defined.

(** ** The list operations *)

(** C8, as stated, fails: under the modern protocol a successful status
    with a body that has no [data] member makes [getLights] and [getRooms]
    return the empty list, not raise. *)
Lemma malformed_body_lists_nothing :
  ~ (forall (net : network) (this : HueBridgeService) (tr : list request)
            (op : operation) (res : response),
        op = GetLights \/ op = GetRooms ->
        _apiVersion this = Some v2 ->
        net tr (listing_request op this) = Answers res ->
        ok res = false \/ well_formed_v2 (payload res) = false ->
        exists e this' tr', call net op this tr = Some (Throw e, this', tr')).
Proof.
  intros claim.
  destruct (claim dataless modern_bridge [] GetLights
                  {| status := 200;
                     payload := Some (VObj [("errors", VArr [VObj [("description", VStr "busy")]])]) |})
    as (e & this' & tr' & H).
  - left. reflexivity.
  - reflexivity.
  - reflexivity.
  - right. reflexivity.
  - vm_compute in H. discriminate.
Qed.

Example dataless_getLights :
  getLights dataless modern_bridge []
  = Some (Ret (VArr []), modern_bridge, [list_lights_v2 modern_bridge]).
Proof. reflexivity. Qed.

Example dataless_getRooms :
  getRooms dataless modern_bridge []
  = Some (Ret (VArr []), modern_bridge, [list_rooms_v2 modern_bridge]).
Proof. reflexivity. Qed.

(** C8, amended.  For [getLights] and [getRooms], under either version: a
    failed attempt raises its exception; a response whose status is not a
    success raises an [Error] that names the operation; a successful
    response whose body is not JSON raises a [SyntaxError], and one whose
    body is [null] a [TypeError].  Under the modern protocol a body without
    a truthy [data] member gives the empty list. *)
Theorem listing_failures
        (net : network) (this : HueBridgeService) (tr : list request)
        (op : operation) :
  op = GetLights \/ op = GetRooms ->
  let q := listing_request op this in
  let settles c := call net op this tr = Some (c, this, (tr ++ [q])%list) in
  (forall e, net tr q = Fails e -> settles (Throw e)) /\
  (forall res, net tr q = Answers res -> ok res = false ->
               settles (Throw (listing_failed op))) /\
  (forall res, net tr q = Answers res -> ok res = true -> payload res = None ->
               settles (Throw SyntaxError)) /\
  (forall res, net tr q = Answers res -> ok res = true -> payload res = Some VNull ->
               settles (Throw TypeError)) /\
  (forall res data, net tr q = Answers res -> ok res = true ->
                    payload res = Some data -> data <> VNull -> data <> VUndef ->
                    _apiVersion this = Some v2 ->
                    truthy (get_prop_opt data "data") = false ->
                    settles (Ret (VArr []))).
Proof.
  intros Hop q settles. subst q settles.
  assert (Hrun : forall res, net tr (listing_request op this) = Answers res ->
                 call net op this tr
                 = (if negb (ok res) then throw (listing_failed op)
                    else
                      data <- lift (json res) ;;
                      match _apiVersion this with
                      | Some v2 => lift (data_or_empty data)
                      | _ =>
                          entries <- lift (Object_entries data) ;;
                          match op with
                          | GetRooms =>
                              groups <- lift (filter_completion is_room_entry entries) ;;
                              rooms <- lift (map_completion room_of_entry groups) ;;
                              ret (VArr rooms)
                          | _ =>
                              lights <- lift (map_completion light_of_entry entries) ;;
                              ret (VArr lights)
                          end
                      end) this (tr ++ [listing_request op this])%list).
  { intros res Hnet.
    destruct Hop as [-> | ->]; simpl in Hnet |- *;
      unfold getLights, getRooms, bind at 1, read;
      destruct (_apiVersion this) as [[|]|];
      unfold bind at 1, fetch; rewrite Hnet;
      destruct (negb (ok res)); try reflexivity;
      unfold bind at 1 3, lift; destruct (json res); reflexivity. }
  repeat split.
  - intros e Hnet.
    destruct Hop as [-> | ->]; simpl in Hnet |- *;
      unfold getLights, getRooms, bind at 1, read;
      destruct (_apiVersion this) as [[|]|];
      unfold bind, fetch; rewrite Hnet; reflexivity.
  - intros res Hnet Hok. rewrite (Hrun res Hnet), Hok. reflexivity.
  - intros res Hnet Hok Hbody. rewrite (Hrun res Hnet), Hok.
    unfold json, bind, lift. rewrite Hbody. reflexivity.
  - intros res Hnet Hok Hbody. rewrite (Hrun res Hnet), Hok.
    unfold json, bind, lift. rewrite Hbody. simpl.
    destruct (_apiVersion this) as [[|]|]; reflexivity.
  - intros res data Hnet Hok Hbody Hnull Hundef Hv2 Hdata.
    rewrite (Hrun res Hnet), Hok.
    unfold json, bind, lift. rewrite Hbody, Hv2. simpl.
    unfold data_or_empty.
    destruct data; try contradiction; simpl in Hdata |- *;
      try reflexivity; rewrite Hdata; reflexivity.
Qed.

(** Under the legacy protocol the error element of an unknown key is
    reshaped like a light; [testConnection] looks for that element,
    [getLights] does not. *)
Example unauthorized_getLights :
  getLights unauthorized_v1 legacy_bridge []
  = Some (Ret (VArr [VObj [("id", VStr "0");
                           ("metadata", VObj [("name", VUndef)]);
                           ("on", VObj [("on", VUndef)]);
                           ("dimming", VObj [("brightness", VUndef)]);
                           ("color", VUndef)]]),
          legacy_bridge, [list_lights_v1 legacy_bridge]).
Proof. reflexivity. Qed.

Example unauthorized_testConnection :
  testConnection unauthorized_v1 (with_connected false legacy_bridge) []
  = Some (Ret (failure (KeyRejected (VStr "unauthorized user"))),
          with_connected false legacy_bridge,
          [probe_request legacy_bridge; list_lights_v2 legacy_bridge;
           list_lights_v1 legacy_bridge]).
Proof. reflexivity. Qed.

Lemma listing_failures_witness :
  getRooms dataless modern_bridge []
  = Some (Ret (VArr []), modern_bridge, [list_rooms_v2 modern_bridge]).
Proof.
  destruct (listing_failures dataless modern_bridge [] GetRooms (or_intror eq_refl))
    as (_ & _ & _ & _ & H).
  apply (H {| status := 200;
              payload := Some (VObj [("errors", VArr [VObj [("description", VStr "busy")]])]) |}
           (VObj [("errors", VArr [VObj [("description", VStr "busy")]])]));
    try reflexivity; discriminate.
Defined.

(** ** Disconnecting *)

(** C9, as stated, fails: after the disconnect handler the form still
    holds the host and the key, and the service still holds them, its
    negotiated version and its connected flag. *)
Lemma disconnect_keeps_credentials :
  let s' := App.handleDisconnect connected_system in
  App.bridgeIp (App.app s') = "10.0.0.5" /\
  App.apiKey (App.app s') = "key" /\
  _bridgeIp (App.bridge s') = Some "10.0.0.5" /\
  _apiKey (App.bridge s') = Some "key" /\
  _apiVersion (App.bridge s') = Some v2 /\
  _connected (App.bridge s') = true.
Proof. repeat split. Qed.

(** C9, amended.  From any state the disconnect handler succeeds; it
    clears the application's connected flag and the version it displays,
    goes back to demonstration mode with the demonstration rooms and no
    active signal, and leaves the stored host, the stored key and every
    field of the service as they were. *)
Theorem handleDisconnect_resets_the_view (s : App.system) :
  let s' := App.handleDisconnect s in
  App.connected (App.app s') = false /\
  App.demoMode (App.app s') = true /\
  App.apiVersion (App.app s') = "" /\
  App.rooms (App.app s') = App.DEMO_ROOMS /\
  App.roomSignals (App.app s') = [] /\
  App.bridgeIp (App.app s') = App.bridgeIp (App.app s) /\
  App.apiKey (App.app s') = App.apiKey (App.app s) /\
  App.logs (App.app s') = App.logs (App.app s) /\
  App.bridge s' = App.bridge s.
Proof. repeat split. Qed.

(** ** The paths of [testConnection] *)

Lemma checkReachability_unanswered
      (net : network) (this : HueBridgeService) (tr : list request) :
  (forall res, net tr (probe_request this) <> Answers res) ->
  (opt_startsWith (_bridgeIp this) "localhost" = true ->
   net tr (probe_request this) <> Silent) ->
  exists cause,
    checkReachability net this tr
    = Some (Ret (unreachable cause), this, (tr ++ [probe_request this])%list) /\
    (cause = "cert" <->
     opt_startsWith (_bridgeIp this) "localhost" = false /\
     exists err, net tr (probe_request this) = Fails err /\
                 err_name err <> "AbortError").
Proof.
  intros Hnone Hlocal.
  unfold checkReachability, bind, read, try_catch, fetch.
  destruct (opt_startsWith (_bridgeIp this) "localhost") eqn:Hhost.
  - destruct (net tr (probe_request this)) as [res|err|] eqn:Hnet.
    + now destruct (Hnone res).
    + exists "network". split; [reflexivity|].
      split; [discriminate | intros [H _]; discriminate].
    + now destruct (Hlocal eq_refl).
  - destruct (net tr (probe_request this)) as [res|err|] eqn:Hnet.
    + now destruct (Hnone res).
    + destruct (str_eqb (err_name err) "AbortError") eqn:Hname.
      * exists "network". split; [reflexivity|].
        split; [discriminate|]. intros (_ & err' & Heq & Hneq).
        injection Heq as <-. apply String.eqb_eq in Hname. contradiction.
      * exists "cert". split; [reflexivity|].
        split; [|reflexivity]. intros _. split; [reflexivity|].
        exists err. split; [reflexivity|]. now apply String.eqb_neq.
    + unfold probe_request. rewrite Hhost. simpl.
      exists "network". split; [reflexivity|].
      split; [discriminate|]. intros (_ & err & Heq & _). discriminate.
Qed.

(** X1.  When the probe of a host that is not local fails with an
    exception that is not an abort, [testConnection] asks for the
    certificate: the address it gives is the one the probe went to, the
    connected flag is false, and the probe is the only request. *)
Theorem testConnection_needs_certificate
        (net : network) (this : HueBridgeService) (tr : list request) (err : js_error) :
  opt_startsWith (_bridgeIp this) "localhost" = false ->
  net tr (probe_request this) = Fails err ->
  err_name err <> "AbortError" ->
  exists r,
    testConnection net this tr
    = Some (Ret r, with_connected false this, (tr ++ [probe_request this])%list) /\
    success r = false /\
    needsCert r = Some true /\
    certUrl r = Some (url (probe_request this)) /\
    negotiated r = None.
Proof.
  intros Hhost Hnet Hname.
  destruct (checkReachability_unanswered net this tr) as (cause & Hreach & Hcause).
  - intros res. rewrite Hnet. discriminate.
  - rewrite Hhost. discriminate.
  - assert (cause = "cert") as -> by (apply Hcause; eauto).
    exists (cert_needed (with_connected false this)).
    unfold testConnection. rewrite (bind_settled _ _ _ _ _ _ _ Hreach).
    split; [reflexivity|].
    unfold probe_request. rewrite Hhost. repeat split.
Qed.

Lemma testConnection_needs_certificate_witness :
  exists r,
    testConnection refusing remote_bridge []
    = Some (Ret r, with_connected false remote_bridge, [probe_request remote_bridge]) /\
    success r = false /\
    needsCert r = Some true /\
    certUrl r = Some (url (probe_request remote_bridge)) /\
    negotiated r = None.
Proof.
  apply (testConnection_needs_certificate refusing remote_bridge []
           (Err "TypeError" "Failed to fetch")).
  - reflexivity.
  - reflexivity.
  - discriminate.
Defined.

(** X2.  When the probe gets no response and the cause is not the
    certificate, [testConnection] reports that the bridge cannot be
    reached, without asking for the certificate and without trying either
    protocol. *)
Theorem testConnection_unreachable_network
        (net : network) (this : HueBridgeService) (tr : list request) :
  (opt_startsWith (_bridgeIp this) "localhost" = false /\
   (net tr (probe_request this) = Silent \/
    exists err, net tr (probe_request this) = Fails err /\
                err_name err = "AbortError")) \/
  (opt_startsWith (_bridgeIp this) "localhost" = true /\
   exists err, net tr (probe_request this) = Fails err) ->
  testConnection net this tr
  = Some (Ret (failure (Text "Cannot reach the bridge. Check the IP address and make sure you're on the same network.")),
          with_connected false this, (tr ++ [probe_request this])%list).
Proof.
  intros H.
  destruct (checkReachability_unanswered net this tr) as (cause & Hreach & Hcause).
  - intros res Hres.
    destruct H as [(_ & [H | (e & H & _)]) | (_ & e & H)];
      rewrite H in Hres; discriminate.
  - intros Hlocal Hsilent.
    destruct H as [(H & _) | (_ & e & H)]; [rewrite H in Hlocal | rewrite H in Hsilent];
      discriminate.
  - assert (Hnot : cause <> "cert").
    { intros Hc. apply Hcause in Hc. destruct Hc as (Hhost & e & He & Hname).
      destruct H as [(_ & [H | (e' & H & Hab)]) | (H & _)].
      - rewrite H in He. discriminate.
      - rewrite H in He. injection He as <-. contradiction.
      - rewrite H in Hhost. discriminate. }
    unfold testConnection. rewrite (bind_settled _ _ _ _ _ _ _ Hreach).
    cbn [reachable negb unreachable]. unfold bind, set_connected, read, reason_is.
    unfold unreachable. cbn [reason]. apply String.eqb_neq in Hnot.
    unfold str_eqb. rewrite Hnot.
    reflexivity.
Qed.

Lemma testConnection_unreachable_network_witness :
  testConnection silent remote_bridge []
  = Some (Ret (failure (Text "Cannot reach the bridge. Check the IP address and make sure you're on the same network.")),
          with_connected false remote_bridge, [probe_request remote_bridge]).
Proof.
  apply (testConnection_unreachable_network silent remote_bridge []).
  left. split; [reflexivity | left; reflexivity].
Defined.

Lemma try_v2_accepted
      (net : network) (this : HueBridgeService) (tr : list request) (res : response) :
  net tr (list_lights_v2 this) = Answers res ->
  ok res = true ->
  try_v2 net this tr
  = Some (Ret (Some (connected_via v2)), connected_with v2 this,
          (tr ++ [list_lights_v2 this])%list).
Proof.
  intros Hnet Hok. unfold try_v2, try_catch, bind, read, fetch.
  rewrite Hnet, Hok. reflexivity.
Qed.

Lemma try_v2_inconclusive
      (net : network) (this : HueBridgeService) (tr : list request) :
  inconclusive (net tr (list_lights_v2 this)) ->
  try_v2 net this tr = Some (Ret None, this, (tr ++ [list_lights_v2 this])%list).
Proof.
  intros H. unfold try_v2, try_catch, bind, read, fetch.
  destruct (net tr (list_lights_v2 this)) as [res|err|]; simpl in H.
  - destruct H as (Hok & H401 & H403). rewrite Hok.
    apply Z.eqb_neq in H401, H403. rewrite H401, H403. reflexivity.
  - reflexivity.
  - contradiction.
Qed.

Lemma truthy_get_prop (v : jsval) (k : string) :
  truthy v = true -> get_prop v k = Ret (get_prop_opt v k).
Proof. destruct v; simpl; intros H; try discriminate; reflexivity. Qed.

Lemma try_v1_answered
      (net : network) (this : HueBridgeService) (tr : list request)
      (res : response) (data : jsval) :
  net tr (list_lights_v1 this) = Answers res ->
  ok res = true ->
  payload res = Some data ->
  try_v1 net this tr
  = Some (if truthy (error_element data)
          then (Ret (Some (failure (KeyRejected
                                      (get_prop_opt (error_element data) "description")))),
                with_connected false this)
          else (Ret (Some (connected_via v1)), connected_with v1 this),
          (tr ++ [list_lights_v1 this])%list).
Proof.
  intros Hnet Hok Hbody. unfold try_v1, try_catch, bind, read, fetch, lift, json.
  rewrite Hnet, Hok, Hbody. unfold error_element.
  destruct data; try reflexivity. simpl isArray. simpl get_index. cbv iota.
  rewrite andb_true_l.
  destruct (truthy (get_prop_opt (nth 0 xs VUndef) "error")) eqn:He.
  - unfold set_connected. rewrite (truthy_get_prop _ "description" He). reflexivity.
  - reflexivity.
Qed.

Lemma try_v1_unusable
      (net : network) (this : HueBridgeService) (tr : list request) :
  unusable (net tr (list_lights_v1 this)) ->
  try_v1 net this tr = Some (Ret None, this, (tr ++ [list_lights_v1 this])%list).
Proof.
  intros H. unfold try_v1, try_catch, bind, read, fetch, lift, json.
  destruct (net tr (list_lights_v1 this)) as [res|err|]; simpl in H.
  - destruct (ok res); [|reflexivity].
    destruct H as [H | H]; [discriminate | rewrite H; reflexivity].
  - reflexivity.
  - contradiction.
Qed.

(** X3.  When the probe is answered and the modern listing answers with a
    success status, [testConnection] succeeds with version [v2], the
    connected flag is set, and the legacy listing is never requested. *)
Theorem testConnection_modern
        (net : network) (this : HueBridgeService) (tr : list request)
        (probe_res res : response) :
  net tr (probe_request this) = Answers probe_res ->
  net (tr ++ [probe_request this])%list (list_lights_v2 this) = Answers res ->
  ok res = true ->
  testConnection net this tr
  = Some (Ret (connected_via v2), connected_with v2 this,
          (tr ++ [probe_request this; list_lights_v2 this])%list).
Proof.
  intros Hprobe Hmodern Hok. unfold testConnection.
  rewrite (bind_settled _ _ _ _ _ _ _
             (checkReachability_answered net this tr probe_res Hprobe)).
  cbn [reachable negb].
  rewrite (bind_settled _ _ _ _ _ _ _ (try_v2_accepted net this _ res Hmodern Hok)).
  unfold ret. rewrite <- app_assoc. reflexivity.
Qed.

Lemma testConnection_modern_witness :
  testConnection obliging local_bridge []
  = Some (Ret (connected_via v2), connected_with v2 local_bridge,
          [probe_request local_bridge; list_lights_v2 local_bridge]).
Proof.
  apply (testConnection_modern obliging local_bridge []
           {| status := 200; payload := Some (VObj [("data", VArr [])]) |}
           {| status := 200; payload := Some (VObj [("data", VArr [])]) |});
    reflexivity.
Defined.

(** X4.  When the modern listing decides nothing and the legacy listing
    answers with a success status and a JSON body, the body decides: an
    array whose first element has a truthy [error] member rejects the key,
    with that element's description; any other body connects through
    version [v1].  Three requests are made, in the order probe, modern
    listing, legacy listing. *)
Theorem testConnection_legacy_fallback
        (net : network) (this : HueBridgeService) (tr : list request)
        (probe_res res : response) (data : jsval) :
  net tr (probe_request this) = Answers probe_res ->
  inconclusive (net (tr ++ [probe_request this])%list (list_lights_v2 this)) ->
  net (tr ++ [probe_request this; list_lights_v2 this])%list (list_lights_v1 this)
  = Answers res ->
  ok res = true ->
  payload res = Some data ->
  testConnection net this tr
  = Some (if truthy (error_element data)
          then (Ret (failure (KeyRejected
                                (get_prop_opt (error_element data) "description"))),
                with_connected false this)
          else (Ret (connected_via v1), connected_with v1 this),
          (tr ++ [probe_request this; list_lights_v2 this; list_lights_v1 this])%list).
Proof.
  intros Hprobe Hmodern Hlegacy Hok Hbody. unfold testConnection.
  rewrite (bind_settled _ _ _ _ _ _ _
             (checkReachability_answered net this tr probe_res Hprobe)).
  cbn [reachable negb].
  rewrite (bind_settled _ _ _ _ _ _ _ (try_v2_inconclusive net this _ Hmodern)).
  rewrite <- app_assoc in *. simpl app in *.
  pose proof (try_v1_answered net this _ res data Hlegacy Hok Hbody) as Hv1.
  rewrite <- app_assoc in Hv1. simpl app in Hv1.
  unfold bind. rewrite Hv1.
  destruct (truthy (error_element data)); reflexivity.
Qed.

Lemma testConnection_legacy_fallback_witness :
  testConnection legacy_only remote_bridge []
  = Some (Ret (connected_via v1), connected_with v1 remote_bridge,
          [probe_request remote_bridge; list_lights_v2 remote_bridge;
           list_lights_v1 remote_bridge]).
Proof.
  apply (testConnection_legacy_fallback legacy_only remote_bridge []
           {| status := 200; payload := Some (VObj [("1", VObj [("name", VStr "Lamp")])]) |}
           {| status := 200; payload := Some (VObj [("1", VObj [("name", VStr "Lamp")])]) |}
           (VObj [("1", VObj [("name", VStr "Lamp")])])).
  - reflexivity.
  - simpl. repeat split; discriminate.
  - reflexivity.
  - reflexivity.
  - reflexivity.
Defined.

(** X5.  When the modern listing decides nothing and the legacy listing
    gives no usable answer either, [testConnection] reports that the API
    calls failed; the connected flag is false and the negotiated version is
    left as it was. *)
Theorem testConnection_both_fail
        (net : network) (this : HueBridgeService) (tr : list request)
        (probe_res : response) :
  net tr (probe_request this) = Answers probe_res ->
  inconclusive (net (tr ++ [probe_request this])%list (list_lights_v2 this)) ->
  unusable (net (tr ++ [probe_request this; list_lights_v2 this])%list
                (list_lights_v1 this)) ->
  testConnection net this tr
  = Some (Ret (failure (Text "Connected to bridge but API calls failed. Check your API key.")),
          with_connected false this,
          (tr ++ [probe_request this; list_lights_v2 this; list_lights_v1 this])%list).
Proof.
  intros Hprobe Hmodern Hlegacy. unfold testConnection.
  rewrite (bind_settled _ _ _ _ _ _ _
             (checkReachability_answered net this tr probe_res Hprobe)).
  cbn [reachable negb].
  rewrite (bind_settled _ _ _ _ _ _ _ (try_v2_inconclusive net this _ Hmodern)).
  rewrite <- app_assoc in *. simpl app in *.
  pose proof (try_v1_unusable net this _ Hlegacy) as Hv1.
  rewrite <- app_assoc in Hv1. simpl app in Hv1.
  unfold bind. rewrite Hv1. reflexivity.
Qed.

Lemma testConnection_both_fail_witness :
  testConnection broken remote_bridge []
  = Some (Ret (failure (Text "Connected to bridge but API calls failed. Check your API key.")),
          with_connected false remote_bridge,
          [probe_request remote_bridge; list_lights_v2 remote_bridge;
           list_lights_v1 remote_bridge]).
Proof.
  apply (testConnection_both_fail broken remote_bridge []
           {| status := 200; payload := None |}).
  - reflexivity.
  - simpl. repeat split; discriminate.
  - simpl. left. reflexivity.
Defined.

(** X6.  On a network that leaves no request without a timer unsettled,
    [testConnection] always settles, and with a result, never an
    exception.  The connected flag then equals the [success] member of the
    result; host and key are untouched; the negotiated version is the one
    returned on success and is left as it was on failure; and the requests
    made are the probe, then possibly the modern listing, then possibly the
    legacy listing. *)
Theorem testConnection_settles
        (net : network) (this : HueBridgeService) (tr : list request) :
  (forall tr' q, abort_after q = None -> net tr' q <> Silent) ->
  exists r this' tr',
    testConnection net this tr = Some (Ret r, this', tr') /\
    _connected this' = success r /\
    _bridgeIp this' = _bridgeIp this /\
    _apiKey this' = _apiKey this /\
    _apiVersion this' = (if success r then negotiated r else _apiVersion this) /\
    (success r = true -> negotiated r <> None) /\
    (tr' = tr ++ [probe_request this] \/
     tr' = tr ++ [probe_request this; list_lights_v2 this] \/
     tr' = tr ++ [probe_request this; list_lights_v2 this; list_lights_v1 this])%list.
Proof.
  intros Hsettles.
  unfold testConnection, checkReachability, try_v2, try_v1, bind, read, lift, ret,
         try_catch, fetch, set_connected, set_apiVersion, reason_is, json,
         probe_request.
  repeat match goal with
         | |- context [match ?x with _ => _ end] =>
             lazymatch x with
             | context [match _ with _ => _ end] => fail
             | _ => destruct x eqn:?
             end
         end;
    try match goal with
        | H : net _ ?q = Silent |- _ =>
            exfalso; exact (Hsettles _ q eq_refl H)
        end;
    try discriminate;
    do 3 eexists; (split; [reflexivity|]); cbn;
    repeat (split; [first [reflexivity | discriminate | intros; discriminate]|]);
    rewrite <- ?app_assoc; cbn [app]; auto.
Qed.

Lemma testConnection_settles_witness :
  exists r this' tr',
    testConnection broken remote_bridge [] = Some (Ret r, this', tr') /\
    _connected this' = success r /\
    _bridgeIp this' = _bridgeIp remote_bridge /\
    _apiKey this' = _apiKey remote_bridge /\
    _apiVersion this' = (if success r then negotiated r else _apiVersion remote_bridge) /\
    (success r = true -> negotiated r <> None) /\
    (tr' = [] ++ [probe_request remote_bridge] \/
     tr' = [] ++ [probe_request remote_bridge; list_lights_v2 remote_bridge] \/
     tr' = [] ++ [probe_request remote_bridge; list_lights_v2 remote_bridge;
                  list_lights_v1 remote_bridge])%list.
Proof.
  apply (testConnection_settles broken remote_bridge []).
  intros tr' q _. unfold broken. destruct tr'; discriminate.
Defined.

(** ** The light and group methods *)

(** X7.  A colour that is [null] or [undefined], as the "clear" signal has,
    makes [setLightColor] and [setGroupedLightColor] throw a [TypeError]
    before anything is sent, under either protocol and whatever the
    network. *)
Theorem set_colour_without_colour_throws
        (net : network) (this : HueBridgeService) (tr : list request)
        (target : string) (color : jsval) (brightness : option float) :
  color = VNull \/ color = VUndef ->
  setLightColor net target color brightness this tr = Some (Throw TypeError, this, tr) /\
  setGroupedLightColor net target color brightness this tr = Some (Throw TypeError, this, tr).
Proof.
  intros [-> | ->]; unfold setLightColor, setGroupedLightColor, bind, read, lift;
    cbv zeta; destruct (_apiVersion this) as [[|]|]; split; reflexivity.
Qed.

Lemma set_colour_without_colour_throws_witness :
  setLightColor silent "light-1a" VNull (Some 0%float) modern_bridge []
  = Some (Throw TypeError, modern_bridge, []) /\
  setGroupedLightColor silent "light-1a" VNull (Some 0%float) modern_bridge []
  = Some (Throw TypeError, modern_bridge, []).
Proof.
  apply (set_colour_without_colour_throws silent modern_bridge [] "light-1a" VNull
           (Some 0%float)).
  left. reflexivity.
Defined.




(** X9.  Before any version is negotiated the methods speak the legacy
    protocol: with the version unset, every call settles as it does with
    version [v1], with the same requests. *)
Theorem unset_version_is_legacy
        (net : network) (this : HueBridgeService) (tr : list request) (op : operation) :
  observed (call net op (with_version None this) tr)
  = observed (call net op (with_version (Some v1) this) tr).
Proof.
  destruct this as [ip key c v].
  destruct op; simpl;
    unfold getLights, getRooms, setLightColor, setGroupedLightColor,
           turnOff, turnOffGroup, signalLight, with_version;
    cbv zeta; unfold bind, read, lift, fetch, throw, ret, observed;
    cbv [put_v1 list_lights_v1 list_groups_v1 _baseUrlV1 _bridgeOrigin _headersV1
         _bridgeIp _apiKey _apiVersion abort_after];
    repeat match goal with
           | |- context [match ?x with _ => _ end] =>
               lazymatch x with
               | context [match _ with _ => _ end] => fail
               | _ => destruct x eqn:?
               end
           end;
    try reflexivity; try congruence.
Qed.

(** X10.  A call of a light or group method makes at most one request, and
    that request goes to the configured bridge.  Under the modern protocol
    the key travels in the [hue-application-key] header and not in the
    address; under the legacy protocol (or with no version negotiated) it
    is a segment of the path and no header carries it. *)
Theorem calls_go_to_the_bridge
        (net : network) (this this' : HueBridgeService) (tr tr' : list request)
        (op : operation) (c : completion jsval) :
  call net op this tr = Some (c, this', tr') ->
  tr' = tr \/
  exists q path,
    tr' = (tr ++ [q])%list /\
    match _apiVersion this with
    | Some v2 =>
        url q = _bridgeOrigin this ++ "/clip/v2" ++ path /\
        headers q = [("hue-application-key", template (_apiKey this));
                     ("Content-Type", "application/json")]
    | _ =>
        url q = _bridgeOrigin this ++ "/api/" ++ template (_apiKey this) ++ path /\
        headers q = [("Content-Type", "application/json")]
    end.
Proof.
  intros H.
  destruct op; simpl in H;
    unfold getLights, getRooms, setLightColor, setGroupedLightColor,
           turnOff, turnOffGroup, signalLight in H;
    cbv zeta in H; unfold bind at 1, read in H;
    destruct (_apiVersion this) as [[|]|];
    unfold bind, lift, fetch, throw, ret in H;
    split_run H;
    injection H as <- <- <-;
    first
      [ left; reflexivity
      | right; do 2 eexists; split; [reflexivity|];
        split; [|reflexivity];
        cbn [url put_v2 put_v1 list_lights_v2 list_lights_v1 list_rooms_v2 list_groups_v1];
        unfold _baseUrlV2, _baseUrlV1; rewrite !append_assoc; reflexivity ].
Qed.

Lemma calls_go_to_the_bridge_witness :
  [list_rooms_v2 modern_bridge] = [] \/
  exists q path,
    [list_rooms_v2 modern_bridge] = ([] ++ [q])%list /\
    url q = _bridgeOrigin modern_bridge ++ "/clip/v2" ++ path /\
    headers q = [("hue-application-key", template (_apiKey modern_bridge));
                 ("Content-Type", "application/json")].
Proof.
  exact (calls_go_to_the_bridge dataless modern_bridge modern_bridge []
           [list_rooms_v2 modern_bridge] GetRooms (Ret (VArr [])) eq_refl).
Defined.

(** ** The legacy brightness scale *)

(** X11.  On the integer percentages the legacy brightness is strictly
    increasing: 0 gives 0, 100 gives 254, and a higher percentage always
    gives a higher value, so no two levels are sent as the same one. *)
Theorem bri_v1_increasing (a b : Z) :
  0 <= a -> a < b -> b <= 100 ->
  bri_v1 (float_of_Z 0) = 0%float /\
  bri_v1 (float_of_Z 100) = 254%float /\
  rounded_254 a < rounded_254 b /\
  bri_v1 (float_of_Z a) = float_of_Z (rounded_254 a) /\
  bri_v1 (float_of_Z b) = float_of_Z (rounded_254 b).
Proof.
  intros Ha Hab Hb.
  split; [reflexivity|]. split; [reflexivity|].
  split; [|split; apply bri_v1_percentage; lia].
  pose proof (rounded_254_nearest a) as Hna.
  pose proof (rounded_254_nearest b) as Hnb.
  lia.
Qed.

Lemma bri_v1_increasing_witness :
  bri_v1 (float_of_Z 0) = 0%float /\
  bri_v1 (float_of_Z 100) = 254%float /\
  rounded_254 79 < rounded_254 80 /\
  bri_v1 (float_of_Z 79) = float_of_Z (rounded_254 79) /\
  bri_v1 (float_of_Z 80) = float_of_Z (rounded_254 80).
Proof.
  apply (bri_v1_increasing 79 80); lia.
Defined.

(** ** The active-signal object *)

Lemma str_eqb_refl (k : string) : str_eqb k k = true.
Proof. apply String.eqb_refl. Qed.

Lemma obj_get_set_same (k v : string) (o : list (string * string)) :
  obj_get k (obj_set k v o) = Some v.
Proof.
  induction o as [|[k' v'] o IH]; simpl.
  - now rewrite str_eqb_refl.
  - destruct (str_eqb k' k) eqn:E; simpl.
    + now rewrite str_eqb_refl.
    + now rewrite E.
Qed.

Lemma obj_get_set_other (k k0 v : string) (o : list (string * string)) :
  k0 <> k -> obj_get k0 (obj_set k v o) = obj_get k0 o.
Proof.
  intros Hne. induction o as [|[k' v'] o IH]; simpl.
  - destruct (str_eqb k k0) eqn:E; [|reflexivity].
    apply String.eqb_eq in E. congruence.
  - destruct (str_eqb k' k) eqn:E; simpl.
    + apply String.eqb_eq in E. subst k'.
      destruct (str_eqb k k0) eqn:E0; [|reflexivity].
      apply String.eqb_eq in E0. congruence.
    + now rewrite IH.
Qed.

Lemma obj_get_delete_same (k : string) (o : list (string * string)) :
  obj_get k (obj_delete k o) = None.
Proof.
  induction o as [|[k' v'] o IH]; simpl; [reflexivity|].
  destruct (str_eqb k' k) eqn:E; simpl; [assumption|]. now rewrite E.
Qed.

Lemma obj_get_delete_other (k k0 : string) (o : list (string * string)) :
  k0 <> k -> obj_get k0 (obj_delete k o) = obj_get k0 o.
Proof.
  intros Hne. induction o as [|[k' v'] o IH]; simpl; [reflexivity|].
  destruct (str_eqb k' k) eqn:E; simpl.
  - apply String.eqb_eq in E. subst k'.
    destruct (str_eqb k k0) eqn:E0; [|assumption].
    apply String.eqb_eq in E0. congruence.
  - now rewrite IH.
Qed.

(** ** [sendSignal] *)

(** X12.  In demonstration mode, or when the application is not connected,
    sending a signal to a known room makes no request and leaves the
    service alone.  Afterwards the room's active signal is the one sent, or
    none after "clear"; the active signal of every other room is as before;
    and the log has one more entry, at the front, marked as a success. *)
Theorem sendSignal_simulated
        (net : network) (stamp : Z * Z) (roomId signalId : string)
        (s : App.system) (tr : list request) (room : App.room) (signal : App.signal) :
  App.demoMode (App.app s) = true \/ App.connected (App.app s) = false ->
  find (fun r => str_eqb (App.room_id r) roomId) (App.rooms (App.app s)) = Some room ->
  find (fun sg => str_eqb (App.sig_id sg) signalId) App.SIGNALS = Some signal ->
  exists s',
    sendSignal net stamp roomId signalId s tr = Some (s', tr) /\
    App.bridge s' = App.bridge s /\
    obj_get roomId (App.roomSignals (App.app s'))
    = (if str_eqb signalId "clear" then None else Some signalId) /\
    (forall other, other <> roomId ->
                   obj_get other (App.roomSignals (App.app s'))
                   = obj_get other (App.roomSignals (App.app s))) /\
    App.logs (App.app s')
    = ({| App.id := fst stamp; App.timestamp := snd stamp;
          App.roomName := App.room_name room;
          App.signalLabel := App.sig_label signal;
          App.success := true |} :: firstn 49 (App.logs (App.app s)))%list.
Proof.
  intros Hmode Hroom Hsignal.
  assert (Hid : App.sig_id signal = signalId).
  { apply find_some in Hsignal. destruct Hsignal as (_ & H).
    now apply String.eqb_eq in H. }
  assert (Hlive : negb (App.demoMode (App.app s)) && App.connected (App.app s) = false).
  { destruct Hmode as [-> | ->]; [reflexivity | apply andb_false_r]. }
  unfold sendSignal. cbv zeta. rewrite Hroom, Hsignal, Hlive. unfold ret.
  eexists. split; [reflexivity|]. rewrite Hid. cbn.
  split; [reflexivity|].
  destruct (str_eqb signalId "clear").
  - split; [apply obj_get_delete_same|].
    split; [intros other Hne; now apply obj_get_delete_other | reflexivity].
  - split; [apply obj_get_set_same|].
    split; [intros other Hne; now apply obj_get_set_other | reflexivity].
Qed.

Lemma sendSignal_simulated_witness :
  exists s',
    sendSignal silent (17, 18) "room-2" "doctor_needed" demo_system []
    = Some (s', []) /\
    App.bridge s' = App.bridge demo_system /\
    obj_get "room-2" (App.roomSignals (App.app s')) = Some "doctor_needed" /\
    (forall other, other <> "room-2" ->
                   obj_get other (App.roomSignals (App.app s'))
                   = obj_get other (App.roomSignals (App.app demo_system))) /\
    App.logs (App.app s')
    = [{| App.id := 17; App.timestamp := 18;
          App.roomName := App.room_name room_2;
          App.signalLabel := App.sig_label doctor_needed;
          App.success := true |}].
Proof.
  apply (sendSignal_simulated silent (17, 18) "room-2" "doctor_needed" demo_system []
           room_2 doctor_needed).
  - left. reflexivity.
  - reflexivity.
  - reflexivity.
Defined.

(** How the four commands run. *)


Lemma turnOffGroup_run (net : network) (this : HueBridgeService) (tr : list request)
      (groupId : string) :
  turnOffGroup net groupId this tr
  = match checked ("Failed to turn off group " ++ groupId)
                  (net tr (group_off_request this groupId)) with
    | Some c => Some (c, this, (tr ++ [group_off_request this groupId])%list)
    | None => None
    end.
Proof.
  unfold turnOffGroup, group_off_request, bind, read, fetch, checked, throw, lift.
  destruct (_apiVersion this) as [[|]|];
    match goal with
    | |- context [net tr ?q] =>
        destruct (net tr q) as [res|e|];
        [destruct (negb (ok res)); reflexivity | reflexivity | reflexivity]
    end.
Qed.

Lemma readable_get_prop (color : jsval) (k : string) :
  color <> VNull -> color <> VUndef -> get_prop color k = Ret (get_prop_opt color k).
Proof. intros Hnull Hundef. destruct color; try contradiction; reflexivity. Qed.


Lemma setGroupedLightColor_run (net : network) (this : HueBridgeService)
      (tr : list request) (groupId : string) (color : jsval) (brightness : float) :
  color <> VNull -> color <> VUndef ->
  setGroupedLightColor net groupId color (Some brightness) this tr
  = match checked ("Failed to set group " ++ groupId)
                  (net tr (group_colour_request this groupId color brightness)) with
    | Some c => Some (c, this,
                      (tr ++ [group_colour_request this groupId color brightness])%list)
    | None => None
    end.
Proof.
  intros Hnull Hundef.
  unfold setGroupedLightColor, group_colour_request, bind, read, fetch, checked,
         throw, lift.
  cbv zeta. rewrite !(readable_get_prop color _ Hnull Hundef). unfold default_brightness.
  destruct (_apiVersion this) as [[|]|];
    match goal with
    | |- context [net tr ?q] =>
        destruct (net tr q) as [res|e|];
        [destruct (negb (ok res)); reflexivity | reflexivity | reflexivity]
    end.
Qed.

(** Every signal of the configuration but "clear" has a colour object. *)
Lemma signal_colour (signalId : string) (signal : App.signal) :
  find (fun sg => str_eqb (App.sig_id sg) signalId) App.SIGNALS = Some signal ->
  App.sig_id signal = signalId /\
  (str_eqb signalId "clear" = false ->
   App.sig_color signal <> VNull /\ App.sig_color signal <> VUndef).
Proof.
  intros H. split.
  - apply find_some in H. destruct H as (_ & H). now apply String.eqb_eq in H.
  - intros Hclear. unfold App.SIGNALS in H. cbn [find App.sig_id] in H.
    do 4 (match type of H with
          | (if ?b then _ else _) = _ =>
              destruct b eqn:?; [injection H as <-; unfold App.xy; cbn; split; discriminate|]
          end).
    match type of H with
    | (if ?b then _ else _) = _ => destruct b eqn:E; [|discriminate]
    end.
    apply String.eqb_eq in E. subst signalId. discriminate Hclear.
Qed.

Lemma for_each_keeps (f : string -> M jsval) (lids : list string) :
  (forall lid, keeps_fields (f lid)) -> keeps_fields (for_each f lids).
Proof.
  intros Hf. induction lids as [|lid rest IH]; simpl.
  - apply keeps_ret.
  - apply keeps_bind; [apply Hf | intros _; exact IH].
Qed.

Lemma live_command_keeps (net : network) (room : App.room) (signal : App.signal) :
  keeps_fields (live_command net room signal).
Proof.
  unfold live_command.
  destruct (str_eqb (App.sig_id signal) "clear"); destruct (group_of room) as [g|].
  - apply keeps_bind; [apply (call_keeps_fields net (TurnOffGroup g)) | intros; apply keeps_ret].
  - apply for_each_keeps. intros lid. apply (call_keeps_fields net (TurnOff lid)).
  - apply keeps_bind; [|intros; apply keeps_ret].
    apply (call_keeps_fields net (SetGroupedLightColor g _ _)).
  - apply for_each_keeps. intros lid.
    apply (call_keeps_fields net (SetLightColor lid _ _)).
Qed.

(** X13.  However a signal fares, sending it never disconnects: the
    connected flag, the mode, the rooms and every field of the service are
    as before.  Either nothing happened (unknown room or signal), or the log
    has one more entry at the front; when that entry records a failure, the
    active-signal object is unchanged and the toast is an error. *)
Theorem sendSignal_keeps_connection
        (net : network) (stamp : Z * Z) (roomId signalId : string)
        (s s' : App.system) (tr tr' : list request) :
  sendSignal net stamp roomId signalId s tr = Some (s', tr') ->
  App.bridge s' = App.bridge s /\
  App.connected (App.app s') = App.connected (App.app s) /\
  App.demoMode (App.app s') = App.demoMode (App.app s) /\
  App.rooms (App.app s') = App.rooms (App.app s) /\
  ((s' = s /\ tr' = tr) \/
   exists entry,
     App.logs (App.app s') = (entry :: firstn 49 (App.logs (App.app s)))%list /\
     App.id entry = fst stamp /\
     (App.success entry = false ->
      App.roomSignals (App.app s') = App.roomSignals (App.app s) /\
      exists text, App.current_toast (App.app s')
                   = Some {| App.toast_message := text; App.toast_type := "error" |})).
Proof.
  unfold sendSignal. cbv zeta. intros H.
  destruct (find _ (App.rooms (App.app s))) as [room|];
    [|injection H as <- <-; repeat split; left; split; reflexivity].
  destruct (find _ App.SIGNALS) as [signal|];
    [|injection H as <- <-; repeat split; left; split; reflexivity].
  match type of H with
  | match ?m (App.bridge s) tr with _ => _ end = _ =>
      assert (Hkeeps : keeps_fields m)
        by (destruct (negb (App.demoMode (App.app s)) && App.connected (App.app s));
            [apply live_command_keeps | apply keeps_ret]);
      destruct (m (App.bridge s) tr) as [[[[u|err] bridge'] tr1]|] eqn:Hrun;
      [| |discriminate]
  end;
    apply Hkeeps in Hrun; subst bridge'; injection H as <- <-; cbn;
    repeat (split; [reflexivity|]); right; eexists;
    (split; [reflexivity|]); (split; [reflexivity|]); cbn; intros Hflag.
  - discriminate.
  - split; [reflexivity | eexists; reflexivity].
Qed.

Lemma sendSignal_keeps_connection_witness :
  exists s' tr',
    sendSignal rejecting_all (17, 18) "room-2" "emergency" live_system []
    = Some (s', tr') /\
    App.bridge s' = App.bridge live_system /\
    App.connected (App.app s') = App.connected (App.app live_system) /\
    App.demoMode (App.app s') = App.demoMode (App.app live_system) /\
    App.rooms (App.app s') = App.rooms (App.app live_system) /\
    ((s' = live_system /\ tr' = []) \/
     exists entry,
       App.logs (App.app s')
       = (entry :: firstn 49 (App.logs (App.app live_system)))%list /\
       App.id entry = fst (17, 18) /\
       (App.success entry = false ->
        App.roomSignals (App.app s') = App.roomSignals (App.app live_system) /\
        exists text, App.current_toast (App.app s')
                     = Some {| App.toast_message := text; App.toast_type := "error" |})).
Proof.
  do 2 eexists. split; [reflexivity|].
  eapply (sendSignal_keeps_connection rejecting_all (17, 18) "room-2" "emergency"
            live_system _ []).
  reflexivity.
Defined.

Lemma checked_accepted (text : string) (b : net_behaviour) :
  accepted b -> exists v, checked text b = Some (Ret v).
Proof.
  intros (res & -> & Hok & Hbody). unfold checked, json. rewrite Hok. simpl.
  destruct (payload res) as [v|]; [eauto | congruence].
Qed.

Lemma checked_turned_down (text : string) (b : net_behaviour) :
  turned_down b -> exists e, checked text b = Some (Throw e).
Proof.
  destruct b as [res|e|]; simpl; intros H.
  - unfold json. destruct (ok res); simpl.
    + destruct H as [H | H]; [discriminate | rewrite H; eauto].
    + eauto.
  - eauto.
  - contradiction.
Qed.

Lemma checked_settles (text : string) (b : net_behaviour) :
  b <> Silent -> exists c, checked text b = Some c.
Proof. destruct b; simpl; intros H; [eauto | eauto | contradiction]. Qed.

(** How the command for a group runs. *)
Lemma group_command_run
      (net : network) (this : HueBridgeService) (tr : list request)
      (room : App.room) (signal : App.signal) (g : string) :
  group_of room = Some g ->
  (str_eqb (App.sig_id signal) "clear" = false ->
   App.sig_color signal <> VNull /\ App.sig_color signal <> VUndef) ->
  exists text,
    live_command net room signal this tr
    = match checked text (net tr (group_request this signal g)) with
      | Some (Ret _) => Some (Ret tt, this, (tr ++ [group_request this signal g])%list)
      | Some (Throw e) => Some (Throw e, this, (tr ++ [group_request this signal g])%list)
      | None => None
      end.
Proof.
  intros Hg Hcolour. unfold live_command, group_request. rewrite Hg.
  destruct (str_eqb (App.sig_id signal) "clear").
  - exists ("Failed to turn off group " ++ g). unfold bind. rewrite turnOffGroup_run.
    destruct (checked _ _) as [[v|e]|]; reflexivity.
  - destruct (Hcolour eq_refl) as (Hnull & Hundef).
    exists ("Failed to set group " ++ g). unfold bind.
    rewrite (setGroupedLightColor_run net this tr g _ _ Hnull Hundef).
    destruct (checked _ _) as [[v|e]|]; reflexivity.
Qed.

(** X14.  When the application is connected and the room has a group id,
    a signal costs exactly one request, the one to the group, whatever the
    number of lights in the room.  If the bridge accepts it, the room's
    active signal is updated and the log entry is a success; if the bridge
    turns it down, the active-signal object is unchanged and the log entry
    is a failure. *)
Theorem sendSignal_grouped
        (net : network) (stamp : Z * Z) (roomId signalId : string)
        (s : App.system) (tr : list request)
        (room : App.room) (signal : App.signal) (g : string) :
  App.demoMode (App.app s) = false ->
  App.connected (App.app s) = true ->
  find (fun r => str_eqb (App.room_id r) roomId) (App.rooms (App.app s)) = Some room ->
  find (fun sg => str_eqb (App.sig_id sg) signalId) App.SIGNALS = Some signal ->
  group_of room = Some g ->
  net tr (group_request (App.bridge s) signal g) <> Silent ->
  exists s' entry,
    sendSignal net stamp roomId signalId s tr
    = Some (s', (tr ++ [group_request (App.bridge s) signal g])%list) /\
    App.logs (App.app s') = (entry :: firstn 49 (App.logs (App.app s)))%list /\
    (accepted (net tr (group_request (App.bridge s) signal g)) ->
     App.success entry = true /\
     obj_get roomId (App.roomSignals (App.app s'))
     = (if str_eqb signalId "clear" then None else Some signalId)) /\
    (turned_down (net tr (group_request (App.bridge s) signal g)) ->
     App.success entry = false /\
     App.roomSignals (App.app s') = App.roomSignals (App.app s)).
Proof.
  intros Hdemo Hconn Hroom Hsignal Hg Hnet.
  destruct (signal_colour signalId signal Hsignal) as (Hid & Hcolour).
  rewrite <- Hid in Hcolour.
  destruct (group_command_run net (App.bridge s) tr room signal g Hg Hcolour)
    as (text & Hrun).
  unfold sendSignal. cbv zeta. rewrite Hroom, Hsignal, Hdemo, Hconn. cbn [negb andb].
  rewrite Hrun.
  destruct (checked text (net tr (group_request (App.bridge s) signal g)))
    as [[v|e]|] eqn:Hchecked.
  - do 2 eexists. split; [reflexivity|]. split; [reflexivity|]. cbn. split.
    + intros _. split; [reflexivity|]. rewrite Hid.
      destruct (str_eqb signalId "clear");
        [apply obj_get_delete_same | apply obj_get_set_same].
    + intros Hdown. destruct (checked_turned_down text _ Hdown) as (e & He).
      rewrite He in Hchecked. discriminate.
  - do 2 eexists. split; [reflexivity|]. split; [reflexivity|]. cbn. split.
    + intros Hacc. destruct (checked_accepted text _ Hacc) as (v & Hv).
      rewrite Hv in Hchecked. discriminate.
    + intros _. split; reflexivity.
  - destruct (checked_settles text _ Hnet) as (c & Hc).
    rewrite Hc in Hchecked. discriminate.
Qed.

Lemma sendSignal_grouped_witness :
  exists s' entry,
    sendSignal rejecting_all (17, 18) "room-2" "doctor_needed" live_system []
    = Some (s', ([] ++ [group_request (App.bridge live_system) doctor_needed "group-2"])%list) /\
    App.logs (App.app s')
    = (entry :: firstn 49 (App.logs (App.app live_system)))%list /\
    (accepted (rejecting_all [] (group_request (App.bridge live_system) doctor_needed "group-2")) ->
     App.success entry = true /\
     obj_get "room-2" (App.roomSignals (App.app s'))
     = (if str_eqb "doctor_needed" "clear" then None else Some "doctor_needed")) /\
    (turned_down (rejecting_all [] (group_request (App.bridge live_system) doctor_needed "group-2")) ->
     App.success entry = false /\
     App.roomSignals (App.app s') = App.roomSignals (App.app live_system)).
Proof.
  apply (sendSignal_grouped rejecting_all (17, 18) "room-2" "doctor_needed"
           live_system [] room_2 doctor_needed "group-2");
    try reflexivity.
  discriminate.
Defined.







(** ** [clearAll] *)

Lemma find_clear :
  find (fun sg => str_eqb (App.sig_id sg) "clear") App.SIGNALS = Some clear_signal.
Proof. reflexivity. Qed.

Lemma find_room_exists (rooms : list App.room) (room : App.room) :
  In room rooms ->
  exists found,
    find (fun r => str_eqb (App.room_id r) (App.room_id room)) rooms = Some found /\
    App.room_id found = App.room_id room.
Proof.
  induction rooms as [|r rooms IH]; simpl; intros Hin; [contradiction|].
  destruct (str_eqb (App.room_id r) (App.room_id room)) eqn:E.
  - exists r. split; [reflexivity | now apply String.eqb_eq in E].
  - destruct Hin as [-> | Hin]; [|now apply IH].
    unfold str_eqb in E. rewrite String.eqb_refl in E. discriminate.
Qed.

Lemma obj_get_delete_none (k k0 : string) (o : list (string * string)) :
  obj_get k0 o = None -> obj_get k0 (obj_delete k o) = None.
Proof.
  destruct (string_dec k0 k) as [-> | Hne].
  - intros _. apply obj_get_delete_same.
  - intros H. now rewrite obj_get_delete_other.
Qed.

Lemma addLog_length (c : App.log_call) (entries : list App.log_entry) :
  (List.length entries <= 50)%nat ->
  (List.length (App.addLog c entries) = Nat.min (List.length entries + 1) 50)%nat.
Proof.
  intros H. unfold App.addLog, App.slice0. cbn [List.length].
  rewrite length_firstn. lia.
Qed.

Lemma clear_each_offline
      (net : network) (clock : nat -> Z * Z) (tr : list request) (todo : list App.room) :
  forall (i : nat) (s : App.system),
    offline s ->
    incl todo (App.rooms (App.app s)) ->
    exists s',
      clear_each net clock i todo s tr = Some (s', tr) /\
      App.bridge s' = App.bridge s /\
      App.rooms (App.app s') = App.rooms (App.app s) /\
      (forall room, In room todo ->
                    obj_get (App.room_id room) (App.roomSignals (App.app s')) = None) /\
      (forall k, obj_get k (App.roomSignals (App.app s)) = None ->
                 obj_get k (App.roomSignals (App.app s')) = None) /\
      (forall k, (forall room, In room todo -> App.room_id room <> k) ->
                 obj_get k (App.roomSignals (App.app s'))
                 = obj_get k (App.roomSignals (App.app s))) /\
      ((List.length (App.logs (App.app s)) <= 50)%nat ->
       (List.length (App.logs (App.app s'))
        = Nat.min (List.length (App.logs (App.app s)) + List.length todo) 50)%nat).
Proof.
  induction todo as [|room todo IH]; intros i s Hoff Hincl.
  - exists s. simpl. repeat split; try reflexivity; try contradiction; auto.
    intros H. lia.
  - destruct (find_room_exists (App.rooms (App.app s)) room) as (found & Hfind & Hid);
      [apply Hincl; now left|].
    assert (Hlive : negb (App.demoMode (App.app s)) && App.connected (App.app s) = false).
    { destruct Hoff as [-> | ->]; [reflexivity | apply andb_false_r]. }
    simpl clear_each. unfold sendSignal. cbv zeta.
    rewrite Hfind, find_clear, Hlive. unfold ret.
    match goal with
    | |- context [clear_each net clock (S i) todo ?s1 tr] =>
        destruct (IH (S i) s1) as (s' & Hrun & Hbridge & Hrooms & Hdone & Hnone & Hother & Hlen);
        [destruct Hoff as [H | H]; [left | right]; exact H
        | intros r Hr; apply Hincl; now right |]
    end.
    exists s'. rewrite Hrun.
    cbn [App.app App.logs App.roomSignals App.bridge App.rooms update_app]
      in Hbridge, Hrooms, Hnone, Hother, Hlen.
    split; [reflexivity|]. split; [exact Hbridge|]. split; [exact Hrooms|].
    split; [|split; [|split]].
    + intros r [<- | Hr]; [|now apply Hdone].
      apply Hnone. apply obj_get_delete_same.
    + intros k Hk. apply Hnone. now apply obj_get_delete_none.
    + intros k Hk. rewrite Hother by (intros r Hr; apply Hk; now right).
      apply obj_get_delete_other. intros ->. now apply (Hk room (or_introl eq_refl)).
    + intros Hle. rewrite Hlen; rewrite addLog_length by exact Hle;
        cbn [List.length]; lia.
Qed.

(** X17.  In demonstration mode, or when the application is not connected,
    "clear all" makes no request and leaves the service alone; afterwards
    no room of the list has an active signal, the entries of the
    active-signal object for other keys are as before, and the log has
    grown by one entry per room, up to its bound of 50. *)
Theorem clearAll_simulated
        (net : network) (clock : nat -> Z * Z) (s : App.system) (tr : list request) :
  offline s ->
  exists s',
    clearAll net clock s tr = Some (s', tr) /\
    App.bridge s' = App.bridge s /\
    (forall room, In room (App.rooms (App.app s)) ->
                  obj_get (App.room_id room) (App.roomSignals (App.app s')) = None) /\
    (forall k, (forall room, In room (App.rooms (App.app s)) -> App.room_id room <> k) ->
               obj_get k (App.roomSignals (App.app s'))
               = obj_get k (App.roomSignals (App.app s))) /\
    ((List.length (App.logs (App.app s)) <= 50)%nat ->
     (List.length (App.logs (App.app s'))
      = Nat.min (List.length (App.logs (App.app s))
                 + List.length (App.rooms (App.app s))) 50)%nat).
Proof.
  intros Hoff.
  destruct (clear_each_offline net clock tr (App.rooms (App.app s)) 0 s Hoff
              (incl_refl _))
    as (s' & Hrun & Hbridge & _ & Hdone & _ & Hother & Hlen).
  unfold clearAll. rewrite Hrun. eexists. split; [reflexivity|]. cbn.
  repeat split; assumption.
Qed.

Lemma clearAll_simulated_witness :
  exists s',
    clearAll silent ticking demo_system [] = Some (s', []) /\
    App.bridge s' = App.bridge demo_system /\
    (forall room, In room (App.rooms (App.app demo_system)) ->
                  obj_get (App.room_id room) (App.roomSignals (App.app s')) = None) /\
    (forall k, (forall room, In room (App.rooms (App.app demo_system)) ->
                             App.room_id room <> k) ->
               obj_get k (App.roomSignals (App.app s'))
               = obj_get k (App.roomSignals (App.app demo_system))) /\
    ((List.length (App.logs (App.app demo_system)) <= 50)%nat ->
     (List.length (App.logs (App.app s'))
      = Nat.min (List.length (App.logs (App.app demo_system))
                 + List.length (App.rooms (App.app demo_system))) 50)%nat).
Proof.
  apply (clearAll_simulated silent ticking demo_system []).
  left. reflexivity.
Defined.





(** ** [handleConnect] *)

Lemma testConnection_invariant
      (net : network) (this this' : HueBridgeService) (tr tr' : list request)
      (c : completion test_result) :
  testConnection net this tr = Some (c, this', tr') ->
  exists r,
    c = Ret r /\
    _connected this' = success r /\
    _bridgeIp this' = _bridgeIp this /\
    _apiKey this' = _apiKey this.
Proof.
  intros H.
  unfold testConnection, checkReachability, try_v2, try_v1, bind, read, lift, ret,
         try_catch, fetch, set_connected, set_apiVersion, reason_is in H.
  cbn [abort_after probe_request list_lights_v2 list_lights_v1] in H.
  split_run H; injection H as <- <- <-; eexists; repeat split.
Qed.

Lemma getRooms_keeps (net : network) : keeps_fields (getRooms net).
Proof. apply (call_keeps_fields net GetRooms). Qed.

Lemma rooms_update_nonempty (fetched : completion jsval) (mapped : jsval) :
  In (SetRooms mapped) (rooms_update fetched) ->
  exists r rs, mapped = VArr (r :: rs).
Proof.
  unfold rooms_update. destruct fetched as [bridgeRooms|e]; [|intros Hin; contradiction].
  destruct (map_rooms bridgeRooms) as [[| | | | |[|r rs]|]|]; simpl;
    try (intros Hin; contradiction).
  intros [H | []]. injection H as <-. eauto.
Qed.

Lemma rooms_update_only_rooms (fetched : completion jsval) (x : setter) :
  In x (rooms_update fetched) -> exists mapped, x = SetRooms mapped.
Proof.
  unfold rooms_update. destruct fetched as [bridgeRooms|e]; [|intros Hin; contradiction].
  destruct (map_rooms bridgeRooms) as [[| | | | |[|r rs]|]|]; simpl;
    try (intros Hin; contradiction).
  intros [<- | []]. eauto.
Qed.

(** X19.  However [handleConnect] ends, it does not reject, and what it
    tells the component agrees with the service: it calls
    [setConnected(true)] exactly when both fields are filled in and the
    service is connected at the end, it never calls [setConnected(false)],
    it leaves demonstration mode whenever it sets the flag, and it hands
    rooms over only together with the flag and only as a non-empty array.
    With both fields filled in, the service holds the normalised host and
    the trimmed key afterwards. *)
Theorem handleConnect_consistent
        (net : network) (a : App.state) (this this' : HueBridgeService)
        (tr tr' : list request) (h : handled) :
  handleConnect net a this tr = Some (h, this', tr') ->
  rejected h = None /\
  ~ In (SetConnected false) (calls h) /\
  (In (SetConnected true) (calls h) <->
   is_empty (App.bridgeIp a) = false /\ is_empty (App.apiKey a) = false /\
   _connected this' = true) /\
  (In (SetConnected true) (calls h) -> In (SetDemoMode false) (calls h)) /\
  (forall mapped, In (SetRooms mapped) (calls h) ->
                  In (SetConnected true) (calls h) /\
                  exists r rs, mapped = VArr (r :: rs)) /\
  (is_empty (App.bridgeIp a) = false -> is_empty (App.apiKey a) = false ->
   _bridgeIp this'
   = Some (strip_trailing_slashes (strip_scheme (trim (App.bridgeIp a)))) /\
   _apiKey this' = Some (trim (App.apiKey a))).
Proof.
  unfold handleConnect. intros H.
  destruct (is_empty (App.bridgeIp a)) eqn:Hip;
    [injection H as <- <- <-; cbn; intuition (try discriminate; try congruence)|].
  destruct (is_empty (App.apiKey a)) eqn:Hkey;
    [injection H as <- <- <-; cbn; intuition (try discriminate; try congruence)|].
  cbn [orb] in H.
  destruct (testConnection net (configure (App.bridgeIp a) (App.apiKey a) this) tr)
    as [[[c this1] tr1]|] eqn:Htest; [|discriminate].
  destruct (testConnection_invariant _ _ _ _ _ _ Htest) as (r & -> & Hconn & Hhost & Hk).
  cbn [configure _bridgeIp _apiKey] in Hhost, Hk.
  destruct (success r) eqn:Hsuccess.
  - destruct (getRooms net this1 tr1) as [[[fetched this2] tr2]|] eqn:Hrooms;
      [|discriminate].
    apply getRooms_keeps in Hrooms. subst this2. injection H as <- <- <-.
    cbn [calls rejected].
    split; [reflexivity|]. split.
    { intros Hin. simpl in Hin.
      repeat (destruct Hin as [Hin | Hin]; [discriminate Hin|]).
      apply rooms_update_only_rooms in Hin. destruct Hin as (m & Hm). discriminate. }
    split.
    { split; [intros _; auto|]. intros _. simpl. auto 10. }
    split.
    { intros _. simpl. auto 10. }
    split.
    { intros mapped Hin. split; [simpl; auto 10|]. simpl in Hin.
      repeat (destruct Hin as [Hin | Hin]; [discriminate Hin|]).
      now apply (rooms_update_nonempty fetched). }
    intros _ _. split; assumption.
  - assert (Hcalls : forall x, In x (calls h) ->
                               x <> SetConnected true /\ x <> SetConnected false /\
                               forall m, x <> SetRooms m).
    { destruct (needsCert r) as [[|]|]; injection H as <- <- <-; cbn;
        intros x Hx; intuition (subst; discriminate). }
    assert (Hrej : rejected h = None /\ this' = this1).
    { destruct (needsCert r) as [[|]|]; injection H as <- <- <-; split; reflexivity. }
    destruct Hrej as (Hrej & ->).
    split; [exact Hrej|]. split.
    { intros Hin. apply Hcalls in Hin. intuition congruence. }
    split.
    { split.
      - intros Hin. apply Hcalls in Hin. intuition congruence.
      - intros (_ & _ & Hc). congruence. }
    split.
    { intros Hin. apply Hcalls in Hin. intuition congruence. }
    split.
    { intros mapped Hin. apply Hcalls in Hin. destruct Hin as (_ & _ & Hin).
      now destruct (Hin mapped). }
    intros _ _. split; assumption.
Qed.

Lemma handleConnect_consistent_witness :
  exists h this' tr',
    handleConnect obliging (App.app connected_system) initial [] = Some (h, this', tr') /\
    rejected h = None /\
    ~ In (SetConnected false) (calls h) /\
    (In (SetConnected true) (calls h) <->
     is_empty (App.bridgeIp (App.app connected_system)) = false /\
     is_empty (App.apiKey (App.app connected_system)) = false /\
     _connected this' = true) /\
    (In (SetConnected true) (calls h) -> In (SetDemoMode false) (calls h)) /\
    (forall mapped, In (SetRooms mapped) (calls h) ->
                    In (SetConnected true) (calls h) /\
                    exists r rs, mapped = VArr (r :: rs)) /\
    (is_empty (App.bridgeIp (App.app connected_system)) = false ->
     is_empty (App.apiKey (App.app connected_system)) = false ->
     _bridgeIp this'
     = Some (strip_trailing_slashes
               (strip_scheme (trim (App.bridgeIp (App.app connected_system))))) /\
     _apiKey this' = Some (trim (App.apiKey (App.app connected_system)))).
Proof.
  do 3 eexists. split; [reflexivity|].
  eapply (handleConnect_consistent obliging (App.app connected_system) initial _ []).
  reflexivity.
Defined.

(** ** The rooms of a legacy bridge *)

(** What [getRooms] makes of an entry of the legacy group list. *)
Lemma room_of_plain_entry (e : string * jsval) :
  plain_group e -> is_room e = true ->
  room_of_entry e
  = Ret (VObj [("id", VStr (fst e));
               ("metadata", VObj [("name", get_prop_opt (snd e) "name")]);
               ("children",
                VArr (map (fun lid => VObj [("rtype", VStr "device"); ("rid", lid)])
                          (lights_list (snd e))));
               ("services",
                VArr [VObj [("rtype", VStr "grouped_light"); ("rid", VStr (fst e))]])]).
Proof.
  destruct e as [id g]. intros ((props & Hg) & Hlights) Hroom. simpl in Hg. subst g.
  specialize (Hlights Hroom). unfold room_of_entry, lights_list, children_of.
  simpl in *. destruct Hlights as [(ls & ->) | Hfalsy].
  - reflexivity.
  - rewrite Hfalsy. destruct (assoc "lights" props); try reflexivity; discriminate.
Qed.

Lemma filter_rooms (entries : list (string * jsval)) :
  Forall plain_group entries ->
  filter_completion is_room_entry entries = Ret (filter is_room entries).
Proof.
  induction 1 as [|[id g] entries ((props & Hg) & _) _ IH]; [reflexivity|].
  simpl in Hg. subst g. simpl. rewrite IH. reflexivity.
Qed.

Lemma devices_kept (ls : list jsval) :
  filter_completion (has_rtype "device")
    (map (fun lid => VObj [("rtype", VStr "device"); ("rid", lid)]) ls)
  = Ret (map (fun lid => VObj [("rtype", VStr "device"); ("rid", lid)]) ls).
Proof.
  induction ls as [|lid ls IH]; [reflexivity|].
  simpl map. cbn [filter_completion]. rewrite IH. reflexivity.
Qed.

Lemma shown_plain_entry (e : string * jsval) :
  plain_group e -> is_room e = true ->
  match room_of_entry e with
  | Ret room => map_room room = Ret (shown_room e)
  | Throw _ => False
  end.
Proof.
  intros Hplain Hroom. rewrite (room_of_plain_entry e Hplain Hroom).
  unfold map_room, shown_room. cbn [get_prop get_prop_opt assoc str_eqb String.eqb
                                    Ascii.eqb Bool.eqb lights_of group_id_of].
  rewrite devices_kept. cbn. rewrite map_map. cbn. rewrite map_id. reflexivity.
Qed.

Lemma shown_rooms (entries : list (string * jsval)) :
  Forall plain_group entries ->
  exists rooms,
    map_completion room_of_entry (filter is_room entries) = Ret rooms /\
    map_completion map_room rooms = Ret (map shown_room (filter is_room entries)).
Proof.
  induction 1 as [|e entries Hplain _ (rooms & Hrooms & Hshown)].
  - exists []. split; reflexivity.
  - simpl filter. destruct (is_room e) eqn:Hroom; [|eauto].
    pose proof (shown_plain_entry e Hplain Hroom) as He.
    destruct (room_of_entry e) as [room|] eqn:Hentry; [|contradiction].
    exists (room :: rooms). cbn [map_completion map].
    rewrite Hentry, Hrooms, He, Hshown. split; reflexivity.
Qed.

(** X20.  Under the legacy protocol, when the group list is an object of
    plain groups, the rooms that [handleConnect] builds from [getRooms]
    are the groups of type "Room", in the order of the list, and no other
    group.  Each has the key of its group as id and as group id, the
    group's lights as lights, and the group's name as name, or its key
    when the name is missing or empty. *)
Theorem legacy_rooms_shown
        (net : network) (this : HueBridgeService) (tr : list request)
        (res : response) (entries : list (string * jsval)) :
  _apiVersion this <> Some v2 ->
  net tr (list_groups_v1 this) = Answers res ->
  ok res = true ->
  payload res = Some (VObj entries) ->
  Forall plain_group entries ->
  exists bridgeRooms,
    getRooms net this tr
    = Some (Ret bridgeRooms, this, (tr ++ [list_groups_v1 this])%list) /\
    map_rooms bridgeRooms = Ret (VArr (map shown_room (filter is_room entries))).
Proof.
  intros Hversion Hnet Hok Hbody Hplain.
  destruct (shown_rooms entries Hplain) as (rooms & Hrooms & Hshown).
  exists (VArr rooms). split.
  - unfold getRooms, bind, read, fetch, lift, json, ret.
    destruct (_apiVersion this) as [[|]|]; [now destruct Hversion | |];
      rewrite Hnet, Hok, Hbody; simpl; rewrite (filter_rooms entries Hplain), Hrooms;
      reflexivity.
  - unfold map_rooms. rewrite Hshown. reflexivity.
Qed.

Lemma legacy_rooms_shown_witness :
  exists bridgeRooms,
    getRooms legacy_house legacy_bridge []
    = Some (Ret bridgeRooms, legacy_bridge, ([] ++ [list_groups_v1 legacy_bridge])%list) /\
    map_rooms bridgeRooms
    = Ret (VArr (map shown_room
                     (filter is_room
                             [("1", VObj [("name", VStr "Exam");
                                          ("lights", VArr [VStr "3"; VStr "4"]);
                                          ("type", VStr "Room")]);
                              ("2", VObj [("name", VStr "Upstairs");
                                          ("lights", VArr [VStr "3"]);
                                          ("type", VStr "Zone")]);
                              ("7", VObj [("lights", VArr []); ("type", VStr "Room")])]))).
Proof.
  apply (legacy_rooms_shown legacy_house legacy_bridge []
           {| status := 200; payload := Some legacy_groups |}).
  - discriminate.
  - reflexivity.
  - reflexivity.
  - reflexivity.
  - repeat (apply Forall_cons;
            [split; [eexists; reflexivity | intros _; left; eexists; reflexivity]|]).
    apply Forall_nil.
Defined.

Example legacy_rooms_example :
  map shown_room (filter is_room
                         [("1", VObj [("name", VStr "Exam");
                                      ("lights", VArr [VStr "3"; VStr "4"]);
                                      ("type", VStr "Room")]);
                          ("2", VObj [("name", VStr "Upstairs");
                                      ("lights", VArr [VStr "3"]);
                                      ("type", VStr "Zone")]);
                          ("7", VObj [("lights", VArr []); ("type", VStr "Room")])])
  = [VObj [("id", VStr "1"); ("name", VStr "Exam");
           ("lights", VArr [VStr "3"; VStr "4"]); ("groupedLightId", VStr "1")];
     VObj [("id", VStr "7"); ("name", VStr "7");
           ("lights", VArr []); ("groupedLightId", VStr "7")]].
Proof. reflexivity. Qed.

Lemma testConnection_cert_run
      (net : network) (this : HueBridgeService) (tr : list request) (err : js_error) :
  opt_startsWith (_bridgeIp this) "localhost" = false ->
  net tr (probe_request this) = Fails err ->
  err_name err <> "AbortError" ->
  testConnection net this tr
  = Some (Ret (cert_needed (with_connected false this)),
          with_connected false this, (tr ++ [probe_request this])%list).
Proof.
  intros Hhost Hnet Hname.
  destruct (checkReachability_unanswered net this tr) as (cause & Hreach & Hcause).
  - intros res. rewrite Hnet. discriminate.
  - rewrite Hhost. discriminate.
  - assert (cause = "cert") as -> by (apply Hcause; eauto).
    unfold testConnection. rewrite (bind_settled _ _ _ _ _ _ _ Hreach). reflexivity.
Qed.

(** X21.  With both fields filled in, when the probe of a host that is not
    local fails with an exception that is not an abort, [handleConnect]
    makes that one request and then tells the component, in this order: the
    three resets, that a certificate is needed, the address to visit
    ([https://<host>/api] for the normalised host), and the text of the
    error.  It sets neither the connected flag nor the rooms. *)
Theorem handleConnect_needs_certificate
        (net : network) (a : App.state) (this : HueBridgeService)
        (tr : list request) (err : js_error) :
  is_empty (App.bridgeIp a) = false ->
  is_empty (App.apiKey a) = false ->
  opt_startsWith (_bridgeIp (configure (App.bridgeIp a) (App.apiKey a) this))
                 "localhost" = false ->
  net tr (probe_request (configure (App.bridgeIp a) (App.apiKey a) this)) = Fails err ->
  err_name err <> "AbortError" ->
  handleConnect net a this tr
  = Some ({| calls :=
               [SetConnectionError (Some (Text "")); SetNeedsCert false; SetCertUrl "";
                SetNeedsCert true;
                SetCertUrl ("https://"
                            ++ strip_trailing_slashes (strip_scheme (trim (App.bridgeIp a)))
                            ++ "/api");
                SetConnectionError
                  (Some (Text "Cannot reach the bridge — you need to accept its security certificate first."))];
             rejected := None |},
          with_connected false (configure (App.bridgeIp a) (App.apiKey a) this),
          (tr ++ [probe_request (configure (App.bridgeIp a) (App.apiKey a) this)])%list).
Proof.
  intros Hip Hkey Hhost Hnet Hname.
  unfold handleConnect. rewrite Hip, Hkey. cbn [orb].
  rewrite (testConnection_cert_run net _ tr err Hhost Hnet Hname).
  reflexivity.
Qed.

Lemma handleConnect_needs_certificate_witness :
  handleConnect refusing (App.app connected_system) initial []
  = Some ({| calls :=
               [SetConnectionError (Some (Text "")); SetNeedsCert false; SetCertUrl "";
                SetNeedsCert true;
                SetCertUrl ("https://"
                            ++ strip_trailing_slashes
                                 (strip_scheme (trim (App.bridgeIp (App.app connected_system))))
                            ++ "/api");
                SetConnectionError
                  (Some (Text "Cannot reach the bridge — you need to accept its security certificate first."))];
             rejected := None |},
          with_connected false
            (configure (App.bridgeIp (App.app connected_system))
                       (App.apiKey (App.app connected_system)) initial),
          ([] ++ [probe_request
                    (configure (App.bridgeIp (App.app connected_system))
                               (App.apiKey (App.app connected_system)) initial)])%list).
Proof.
  apply (handleConnect_needs_certificate refusing (App.app connected_system) initial []
           (Err "TypeError" "Failed to fetch")); try reflexivity.
  discriminate.
Defined.

(** ** The lights of a legacy bridge *)

Lemma truthy_get_index (v : jsval) (i : nat) :
  truthy v = true -> exists x, get_index v i = Ret x.
Proof. destruct v; simpl; intros H; try discriminate; eauto. Qed.

Lemma light_of_entry_id (id : string) (light : jsval) :
  light <> VNull -> light <> VUndef ->
  exists l, light_of_entry (id, light) = Ret l /\ get_prop_opt l "id" = VStr id.
Proof.
  intros Hnull Hundef. unfold light_of_entry.
  rewrite !(readable_get_prop light _ Hnull Hundef).
  destruct (truthy (get_prop_opt (get_prop_opt light "state") "xy")) eqn:Hxy.
  - destruct (truthy_get_index _ 0 Hxy) as (x0 & ->).
    destruct (truthy_get_index _ 1 Hxy) as (x1 & ->).
    eexists. split; reflexivity.
  - eexists. split; reflexivity.
Qed.

Lemma light_of_entry_null (id : string) (light : jsval) :
  light = VNull \/ light = VUndef -> light_of_entry (id, light) = Throw TypeError.
Proof. intros [-> | ->]; reflexivity. Qed.

Lemma light_of_entry_error (e : string * jsval) (err : js_error) :
  light_of_entry e = Throw err -> err = TypeError.
Proof.
  destruct e as [id light]. unfold light_of_entry.
  destruct (get_prop light "name") as [name|e1] eqn:Hname;
    [|destruct light; simpl in Hname; try discriminate; congruence].
  destruct (get_prop light "state") as [st|e2] eqn:Hstate;
    [|destruct light; simpl in Hstate; try discriminate; congruence].
  destruct (truthy (get_prop_opt st "xy")) eqn:Hxy; [|discriminate].
  destruct (truthy_get_index _ 0 Hxy) as (x0 & ->).
  destruct (truthy_get_index _ 1 Hxy) as (x1 & ->). discriminate.
Qed.

Lemma lights_listed (entries : list (string * jsval)) :
  Forall (fun e => snd e <> VNull /\ snd e <> VUndef) entries ->
  exists ls,
    map_completion light_of_entry entries = Ret ls /\
    map (fun l => get_prop_opt l "id") ls = map (fun e => VStr (fst e)) entries.
Proof.
  induction 1 as [|[id light] entries (Hnull & Hundef) _ (ls & Hls & Hids)].
  - exists []. split; reflexivity.
  - destruct (light_of_entry_id id light Hnull Hundef) as (l & Hl & Hid).
    exists (l :: ls). cbn [map_completion map]. rewrite Hl, Hls, Hid, Hids.
    split; reflexivity.
Qed.

Lemma lights_fail (entries : list (string * jsval)) :
  Exists (fun e => snd e = VNull \/ snd e = VUndef) entries ->
  map_completion light_of_entry entries = Throw TypeError.
Proof.
  induction 1 as [[id light] entries Hbad | e entries _ IH]; cbn [map_completion].
  - simpl in Hbad. now rewrite (light_of_entry_null id light Hbad).
  - destruct (light_of_entry e) as [l|err] eqn:He.
    + now rewrite IH.
    + now rewrite (light_of_entry_error e err He).
Qed.

(** X22.  Under the legacy protocol, when the light list is an object,
    [getLights] returns one light per entry, in the order of the list, each
    with the key of its entry as id, provided no entry is [null]; a single
    [null] entry makes the whole call throw a [TypeError]. *)
Theorem legacy_lights_listed
        (net : network) (this : HueBridgeService) (tr : list request)
        (res : response) (entries : list (string * jsval)) :
  _apiVersion this <> Some v2 ->
  net tr (list_lights_v1 this) = Answers res ->
  ok res = true ->
  payload res = Some (VObj entries) ->
  (Forall (fun e => snd e <> VNull /\ snd e <> VUndef) entries ->
   exists ls,
     getLights net this tr
     = Some (Ret (VArr ls), this, (tr ++ [list_lights_v1 this])%list) /\
     map (fun l => get_prop_opt l "id") ls = map (fun e => VStr (fst e)) entries) /\
  (Exists (fun e => snd e = VNull \/ snd e = VUndef) entries ->
   getLights net this tr
   = Some (Throw TypeError, this, (tr ++ [list_lights_v1 this])%list)).
Proof.
  intros Hversion Hnet Hok Hbody.
  assert (Hrun : getLights net this tr
                 = match map_completion light_of_entry entries with
                   | Ret ls => Some (Ret (VArr ls), this, (tr ++ [list_lights_v1 this])%list)
                   | Throw e => Some (Throw e, this, (tr ++ [list_lights_v1 this])%list)
                   end).
  { unfold getLights, bind, read, fetch, lift, json, ret.
    destruct (_apiVersion this) as [[|]|]; [now destruct Hversion | |];
      rewrite Hnet, Hok, Hbody; simpl;
      destruct (map_completion light_of_entry entries); reflexivity. }
  rewrite Hrun. split.
  - intros Hall. destruct (lights_listed entries Hall) as (ls & -> & Hids). eauto.
  - intros Hbad. now rewrite (lights_fail entries Hbad).
Qed.

Lemma legacy_lights_listed_witness :
  (Forall (fun e => snd e <> VNull /\ snd e <> VUndef)
          [("1", VObj [("name", VStr "Lamp")])] ->
   exists ls,
     getLights legacy_only legacy_bridge []
     = Some (Ret (VArr ls), legacy_bridge, ([] ++ [list_lights_v1 legacy_bridge])%list) /\
     map (fun l => get_prop_opt l "id") ls
     = map (fun e => VStr (fst e)) [("1", VObj [("name", VStr "Lamp")])]) /\
  (Exists (fun e => snd e = VNull \/ snd e = VUndef)
          [("1", VObj [("name", VStr "Lamp")])] ->
   getLights legacy_only legacy_bridge []
   = Some (Throw TypeError, legacy_bridge, ([] ++ [list_lights_v1 legacy_bridge])%list)).
Proof.
  apply (legacy_lights_listed legacy_only legacy_bridge []
           {| status := 200; payload := Some (VObj [("1", VObj [("name", VStr "Lamp")])]) |}).
  - discriminate.
  - reflexivity.
  - reflexivity.
  - reflexivity.
Defined.
